(** * Smartrzliv: the refresh/cache pipeline of the class-schedule server

    A shallow embedding of the server script (retrying fetch, token
    acquisition, per-type fetch-decode-cache, update cycle, status
    endpoint) together with the two codecs its decode step runs through:
    Node's lenient base64 decoder and the UTF-8 decoder with replacement
    behind [Buffer.from(s, 'base64').toString('utf8')]. *)

From Stdlib Require Import ZArith QArith List String Ascii Lia Bool.
From stdpp Require Import base option list gmap strings pretty.

(** ** Bounded exhaustive checks

    Facts about six-bit and eight-bit quantities are settled by running a
    boolean test over the whole range. *)

Fixpoint all_below (n : nat) (P : Z → bool) : bool :=
  match n with
  | O => true
  | S k => P (Z.of_nat k) && all_below k P
  end.

(** ** Base64 *)

Module Base64.
Local Open Scope Z_scope.

Definition alphabet : string :=
  "ABCDEFGHIJKLMNOPQRSTUVWXYZabcdefghijklmnopqrstuvwxyz0123456789+/".

Definition pad : ascii := "="%char.

Definition code (c : ascii) : Z := Z.of_N (N_of_ascii c).

(** The character of a six-bit value in the standard alphabet. *)
Definition base64_char (n : Z) : ascii :=
  match String.get (Z.to_nat n) alphabet with
  | Some c => c
  | None => pad
  end.

(** Node's [unbase64] table: both the standard and the URL-safe alphabet
    are legal; every other character (padding and whitespace included) has
    no value. *)
Definition unbase64 (c : ascii) : option Z :=
  let x := code c in
  if (65 <=? x) && (x <=? 90) then Some (x - 65)
  else if (97 <=? x) && (x <=? 122) then Some (x - 71)
  else if (48 <=? x) && (x <=? 57) then Some (x + 4)
  else if (x =? 43) || (x =? 45) then Some 62
  else if (x =? 47) || (x =? 95) then Some 63
  else None.

(** The four six-bit groups of three bytes. *)
Definition sextet0 (b0 : Z) : Z := Z.shiftr b0 2.
Definition sextet1 (b0 b1 : Z) : Z :=
  Z.lor (Z.shiftl (Z.land b0 3) 4) (Z.shiftr b1 4).
Definition sextet2 (b1 b2 : Z) : Z :=
  Z.lor (Z.shiftl (Z.land b1 15) 2) (Z.shiftr b2 6).
Definition sextet3 (b2 : Z) : Z := Z.land b2 63.

(** Standard padded encoding, [buf.toString('base64')]. *)
Fixpoint encode (bs : list Z) : string :=
  match bs with
  | [] => EmptyString
  | [b0] =>
      String (base64_char (sextet0 b0))
        (String (base64_char (sextet1 b0 0)) (String pad (String pad EmptyString)))
  | [b0; b1] =>
      String (base64_char (sextet0 b0))
        (String (base64_char (sextet1 b0 b1))
           (String (base64_char (sextet2 b1 0)) (String pad EmptyString)))
  | b0 :: b1 :: b2 :: rest =>
      String (base64_char (sextet0 b0))
        (String (base64_char (sextet1 b0 b1))
           (String (base64_char (sextet2 b1 b2))
              (String (base64_char (sextet3 b2)) (encode rest))))
  end.

(** The three bytes a group of four legal characters yields, as the
    decoder writes them from the previous ([hi]) and current ([lo])
    six-bit value. *)
Definition octet0 (hi lo : Z) : Z :=
  Z.lor (Z.shiftl (Z.land hi 63) 2) (Z.shiftr (Z.land lo 48) 4).
Definition octet1 (hi lo : Z) : Z :=
  Z.lor (Z.shiftl (Z.land hi 15) 4) (Z.shiftr (Z.land lo 60) 2).
Definition octet2 (hi lo : Z) : Z :=
  Z.lor (Z.shiftl (Z.land hi 3) 6) (Z.land lo 63).

(** Node's decoder: illegal characters are skipped, the first padding
    character ends the decoding, and an incomplete last group yields the
    bytes it determines. [phase] counts the legal characters read in the
    current group and [hi] is the last of them. A character of the string
    stands for the low byte of a code unit, which is all the decoder
    reads. *)
Fixpoint decode_from (phase : nat) (hi : Z) (s : string) : list Z :=
  match s with
  | EmptyString => []
  | String c s' =>
      match unbase64 c with
      | Some lo =>
          match phase with
          | 0%nat => decode_from 1 lo s'
          | 1%nat => octet0 hi lo :: decode_from 2 lo s'
          | 2%nat => octet1 hi lo :: decode_from 3 lo s'
          | _ => octet2 hi lo :: decode_from 0 lo s'
          end
      | None => if Ascii.eqb c pad then [] else decode_from phase hi s'
      end
  end.

Definition decode (s : string) : list Z := decode_from 0 0 s.

Definition is_byte (b : Z) : Prop := 0 ≤ b < 256.

(** Bit-level facts of one group, checked over all bytes. *)
Definition group_check (x y : Z) : bool :=
  bool_decide (0 ≤ sextet0 x < 64) && bool_decide (0 ≤ sextet1 x y < 64)
  && bool_decide (0 ≤ sextet2 x y < 64) && bool_decide (0 ≤ sextet3 x < 64)
  && bool_decide (octet0 (sextet0 x) (sextet1 x y) = x)
  && bool_decide (Z.land (sextet1 x y) 15 = Z.shiftr y 4)
  && bool_decide (Z.shiftr (Z.land (sextet2 x y) 60) 2 = Z.land x 15)
  && bool_decide (Z.lor (Z.shiftl (Z.shiftr x 4) 4) (Z.land x 15) = x)
  && bool_decide (Z.land (sextet2 x y) 3 = Z.shiftr y 6)
  && bool_decide (Z.lor (Z.shiftl (Z.shiftr x 6) 6) (Z.land (sextet3 x) 63) = x).

(** The three bytes of a group are bytes, checked over all six-bit pairs. *)
Definition octets_check (hi lo : Z) : bool :=
  bool_decide (0 ≤ octet0 hi lo < 256) && bool_decide (0 ≤ octet1 hi lo < 256)
  && bool_decide (0 ≤ octet2 hi lo < 256).

End Base64.

(** ** UTF-8 *)

Module Utf8.
Local Open Scope Z_scope.

(** A Unicode scalar value: a code point that is not a surrogate. Text is
    modelled as a sequence of scalar values. *)
Definition scalar (cp : Z) : Prop :=
  0 ≤ cp < 0xD800 ∨ 0xE000 ≤ cp < 0x110000.

(** The UTF-8 bytes of one code point, as writing a string with the
    'utf8' encoding produces them. *)
Definition encode_cp (cp : Z) : list Z :=
  if cp <? 0x80 then [cp]
  else if cp <? 0x800 then
    [Z.lor 0xC0 (Z.shiftr cp 6); Z.lor 0x80 (Z.land cp 0x3F)]
  else if cp <? 0x10000 then
    [Z.lor 0xE0 (Z.shiftr cp 12);
     Z.lor 0x80 (Z.land (Z.shiftr cp 6) 0x3F);
     Z.lor 0x80 (Z.land cp 0x3F)]
  else
    [Z.lor 0xF0 (Z.shiftr cp 18);
     Z.lor 0x80 (Z.land (Z.shiftr cp 12) 0x3F);
     Z.lor 0x80 (Z.land (Z.shiftr cp 6) 0x3F);
     Z.lor 0x80 (Z.land cp 0x3F)].

Definition encode (text : list Z) : list Z := flat_map encode_cp text.

(** Decoder state: continuation bytes still needed, the code point
    accumulated so far, and the range allowed for the next byte. *)
Record state := mkState {
  needed : nat;
  acc : Z;
  lower : Z;
  upper : Z
}.

Definition start : state := mkState 0 0 0x80 0xBF.

Definition replacement : Z := 0xFFFD.

(** A byte read when no sequence is open. *)
Definition lead (b : Z) : list Z * state :=
  if b <=? 0x7F then ([b], start)
  else if (0xC2 <=? b) && (b <=? 0xDF) then
    ([], mkState 1 (Z.land b 0x1F) 0x80 0xBF)
  else if (0xE0 <=? b) && (b <=? 0xEF) then
    ([], mkState 2 (Z.land b 0xF)
           (if b =? 0xE0 then 0xA0 else 0x80)
           (if b =? 0xED then 0x9F else 0xBF))
  else if (0xF0 <=? b) && (b <=? 0xF4) then
    ([], mkState 3 (Z.land b 0x7)
           (if b =? 0xF0 then 0x90 else 0x80)
           (if b =? 0xF4 then 0x8F else 0xBF))
  else ([replacement], start).

(** One byte of input. A byte outside the allowed range closes the open
    sequence with one replacement character and is then read again as the
    first byte of a new sequence. *)
Definition step (st : state) (b : Z) : list Z * state :=
  match needed st with
  | O => lead b
  | S k =>
      if (lower st <=? b) && (b <=? upper st) then
        let cp := Z.lor (Z.shiftl (acc st) 6) (Z.land b 0x3F) in
        match k with
        | O => ([cp], start)
        | S _ => ([], mkState k cp 0x80 0xBF)
        end
      else
        let '(out, st') := lead b in (replacement :: out, st')
  end.

(** Decoding with replacement, [buf.toString('utf8')]: an input that
    ends inside a sequence yields one more replacement character. *)
Fixpoint decode_from (st : state) (bs : list Z) : list Z :=
  match bs with
  | [] => match needed st with O => [] | S _ => [replacement] end
  | b :: bs' => let '(out, st') := step st b in out ++ decode_from st' bs'
  end.

Definition decode (bs : list Z) : list Z := decode_from start bs.

(** What an open sequence promises: whatever continuation bytes the
    decoder accepts next, the code point it completes is a scalar
    value. *)
Fixpoint completes (k : nat) (a lo hi : Z) : Prop :=
  match k with
  | O => scalar a
  | S k' => ∀ b, lo ≤ b ≤ hi → completes k' (a * 64 + b mod 64) 0x80 0xBF
  end.

Definition sound (st : state) : Prop :=
  match needed st with
  | O => True
  | S k => completes (S k) (acc st) (lower st) (upper st)
  end.

End Utf8.

(** ** JavaScript values, errors and effects *)

(** A value obtained from [JSON.parse], seen through what the script does
    with it: truthiness, string methods, and [Buffer.from]. An array or
    object is represented by its array-like view, the integer values of
    its elements when [Buffer.from] accepts it (an array, or an object
    with a numeric [length] or of the [{type: 'Buffer', data}] shape) and
    nothing when [Buffer.from] rejects it. [JUndefined] is the value of
    an absent property. *)
Inductive js_value :=
  | JUndefined
  | JNull
  | JBool (b : bool)
  | JNumber (x : Q)
  | JString (s : string)
  | JObject (array_like : option (list Z)).

(** ToBoolean. *)
Definition truthy (v : js_value) : bool :=
  match v with
  | JUndefined | JNull => false
  | JBool b => b
  | JNumber x => negb (Qeq_bool x (0 # 1))
  | JString EmptyString => false
  | JString (String _ _) => true
  | JObject _ => true
  end.

Record JsError := mkError { message : string }.

Inductive Completion (A : Type) :=
  | Normal (a : A)
  | Throw (e : JsError).
Arguments Normal {A} a.
Arguments Throw {A} e.

(** The result of [response.json()]: a rejection when the body is not
    JSON, otherwise the parsed value through its property lookup. A JSON
    primitive or array has none of the properties the script reads. *)
Inductive json_body :=
  | BodyInvalid (e : JsError)
  | BodyNull
  | BodyValue (props : gmap string js_value).

Record Response := mkResponse {
  status : N;
  statusText : string;
  body_json : json_body
}.

(** node-fetch's [response.ok]. *)
Definition ok (r : Response) : bool :=
  ((200 <=? status r) && (status r <? 300))%N.

Record Options := mkOptions {
  method : option string;
  headers : list (string * js_value);
  body : option string
}.

Inductive FetchOutcome :=
  | Rejects (e : JsError)
  | Resolves (r : Response).

(** What the script does to the outside, in program order. *)
Inductive Event :=
  | ConsoleLog (line : string)
  | ConsoleError (line : string)
  | SetTimeout (ms : Z)
  | Fetch (url : string) (options : Options)
  | WriteFile (path : string) (text : list Z).

(** The state the script owns: the cache files (their bytes) and the
    module-level [lastUpdateTime]. *)
Record World := mkWorld {
  files : gmap string (list Z);
  lastUpdateTime : string
}.

(** The surroundings of one update cycle. [network url options i] is the
    outcome of the [i]-th [fetch] (counted from 0) that one
    [fetchWithRetry] call issues for that request; [disk path] is the error
    [fs.writeFile] rejects with, if it does; [clock k] is the [k]-th
    reading of [new Date().toLocaleTimeString()]. The last three fields
    are what the runtime makes of a parsed value beyond the view
    [js_value] keeps of it: [to_text] is the string a template literal
    makes of a value that is not a string, when the conversion succeeds;
    [not_convertible] is the TypeError the conversion throws instead for
    an object, if it has neither a usable [toString] nor a usable
    [valueOf] (a parsed [{"toString": 1}], say); [invalid_arg_type] is
    the TypeError [Buffer.from] throws on a value it rejects, whose
    message describes the value received. Within one cycle, values with
    the same view are taken to be converted and described alike. *)
Record Env := mkEnv {
  dirname : string;
  network : string → Options → nat → FetchOutcome;
  disk : string → option JsError;
  clock : nat → string;
  to_text : js_value → string;
  not_convertible : js_value → option JsError;
  invalid_arg_type : js_value → JsError
}.

#[projections(primitive)]
Record Run (A : Type) := mkRun {
  completion : Completion A;
  world : World;
  events : list Event
}.
Arguments mkRun {A} completion world events.
Arguments completion {A} r.
Arguments world {A} r.
Arguments events {A} r.

(** A computation of the script: from a state to a completion, a new
    state and the events emitted on the way. *)
Definition Js (A : Type) : Type := World → Run A.

Definition ret {A} (a : A) : Js A := λ w, mkRun (Normal a) w [].

Definition throw {A} (e : JsError) : Js A := λ w, mkRun (Throw e) w [].

Definition bind {A B} (m : Js A) (k : A → Js B) : Js B := λ w,
  let r := m w in
  match completion r with
  | Normal a =>
      let r' := k a (world r) in
      mkRun (completion r') (world r') (events r ++ events r')
  | Throw e => mkRun (Throw e) (world r) (events r)
  end.

(** [try { m } catch (error) { h error }]. *)
Definition try_catch {A} (m : Js A) (h : JsError → Js A) : Js A := λ w,
  let r := m w in
  match completion r with
  | Normal a => r
  | Throw e =>
      let r' := h e (world r) in
      mkRun (completion r') (world r') (events r ++ events r')
  end.

Definition emit (e : Event) : Js unit := λ w, mkRun (Normal tt) w [e].

Notation "'let*' x ':=' m 'in' k" := (bind m (λ x, k))
  (at level 10, x name, m at level 100, k at level 200,
   format "'[v' 'let*'  x  ':='  m  'in' '/' k ']'").
Notation "'do*' m 'in' k" := (bind m (λ _, k))
  (at level 10, m at level 100, k at level 200,
   format "'[v' 'do*'  m  'in' '/' k ']'").

Definition console_log (line : string) : Js unit := emit (ConsoleLog line).
Definition console_error (line : string) : Js unit := emit (ConsoleError line).

(** [await new Promise(resolve => setTimeout(resolve, ms))]. *)
Definition sleep (ms : Z) : Js unit := emit (SetTimeout ms).

(** [await fetch(url, options)], the [i]-th of its [fetchWithRetry] call. *)
Definition fetch (env : Env) (url : string) (options : Options) (i : nat)
  : Js Response := λ w,
  mkRun (match network env url options i with
         | Resolves r => Normal r
         | Rejects e => Throw e
         end) w [Fetch url options].

(** [await response.json()]. *)
Definition response_json (r : Response) : Js json_body :=
  match body_json r with
  | BodyInvalid e => throw e
  | b => ret b
  end.

(** Reading a property of a parsed body; reading from [null] throws a
    TypeError. *)
Definition get_property (b : json_body) (name : string) : Js js_value :=
  match b with
  | BodyValue props => ret (default JUndefined (props !! name))
  | _ => throw (mkError ("Cannot read properties of null (reading '"
                           +:+ name +:+ "')"))
  end.

(** [const { name } = value]: destructuring [null] throws a TypeError. *)
Definition destructure (b : json_body) (name : string) : Js js_value :=
  match b with
  | BodyValue props => ret (default JUndefined (props !! name))
  | _ => throw (mkError ("Cannot destructure property '" +:+ name
                           +:+ "' of 'tokenData' as it is null."))
  end.

(** [value.substring(start, len)]: only a string has the method. *)
Definition js_substring (v : js_value) (start len : nat) : Js string :=
  match v with
  | JString s => ret (substring start len s)
  | _ => throw (mkError "signature.substring is not a function")
  end.

(** The bytes [Buffer.from(value, 'base64')] makes of a value it
    accepts: a string is decoded leniently and never rejected; an
    array-like gives its elements as bytes. *)
Definition buffer_of (v : js_value) : option (list Z) :=
  match v with
  | JString s => Some (Base64.decode s)
  | JObject (Some elems) => Some (map (λ x, x mod 256)%Z elems)
  | _ => None
  end.

(** [Buffer.from(value, 'base64')]: anything it does not accept (a
    number, a boolean, a plain object) is a TypeError. *)
Definition Buffer_from (env : Env) (v : js_value) : Js (list Z) :=
  match buffer_of v with
  | Some bytes => ret bytes
  | None => throw (invalid_arg_type env v)
  end.

(** [buffer.toString('utf8')]. *)
Definition Buffer_toString (bytes : list Z) : list Z := Utf8.decode bytes.

(** [await fs.writeFile(path, text, 'utf8')]: the file is replaced by the
    UTF-8 bytes of the text, or the write is rejected and the file is left
    as it was. *)
Definition fs_writeFile (env : Env) (path : string) (text : list Z)
  : Js unit := λ w,
  match disk env path with
  | Some e => mkRun (Throw e) w [WriteFile path text]
  | None =>
      mkRun (Normal tt)
        (mkWorld (<[path := Utf8.encode text]> (files w)) (lastUpdateTime w))
        [WriteFile path text]
  end.

(** [Promise.all] over computations that were all started: every one runs
    to its end, and the first rejection, if any, is the result. The
    computations of one cycle send different requests and write
    different files, and [network] answers per request, so the order in
    which their steps interleave does not show in what each of them does;
    they are run here one after the other. *)
Fixpoint Promise_all (ps : list (Js unit)) : Js unit :=
  match ps with
  | [] => ret tt
  | p :: ps' => λ w,
      let r := p w in
      let r' := Promise_all ps' (world r) in
      mkRun (match completion r with
             | Throw e => Throw e
             | Normal _ => completion r'
             end) (world r') (events r ++ events r')
  end.

(** ** The script *)

Definition TOKEN_URL : string := "https://rolexcoderz.in/api/get-token".
Definition CONTENT_URL : string := "https://rolexcoderz.in/api/get-live-classes".
Definition CACHE_INTERVAL_MS : Z := 60000.
Definition MAX_RETRIES : nat := 5.
Definition PROXY_URL : string := "http://167.99.199.170:80".

Definition HEADERS : list (string * js_value) :=
  [ ("Content-Type", JString "application/json");
    ("Accept", JString "application/json, text/plain, */*");
    ("Referer", JString "https://rolexcoderz.in/live-classes");
    ("User-Agent", JString ("Mozilla/5.0 (Windows NT 10.0; Win64; x64) "
       +:+ "AppleWebKit/537.36 (KHTML, like Gecko) Chrome/126.0.0.0 Safari/537.36"));
    ("Accept-Encoding", JString "gzip, deflate, br");
    ("Accept-Language", JString "en-US,en;q=0.9");
    ("Connection", JString "keep-alive");
    ("Cache-Control", JString "max-age=0");
    ("DNT", JString "1");
    ("Sec-Fetch-Dest", JString "empty");
    ("Sec-Fetch-Mode", JString "cors");
    ("Sec-Fetch-Site", JString "same-origin");
    ("Pragma", JString "no-cache") ].

Record RequestType := mkRequestType {
  type : string;
  filename : string;
  label : string
}.

Definition REQUEST_TYPES : list RequestType :=
  [ mkRequestType "up" "upcoming.json" "Upcoming";
    mkRequestType "live" "live.json" "Live";
    mkRequestType "completed" "completed.json" "Completed" ].

(** [path.join] on a POSIX system, after Node's [lib/path.js].

    The segments of a path, split at its separators; [segment] is the
    part of the current segment read so far. *)
Fixpoint segments_from (segment path : string) : list string :=
  match path with
  | EmptyString => [segment]
  | String c rest =>
      if Ascii.eqb c "/" then segment :: segments_from EmptyString rest
      else segments_from (segment +:+ String c EmptyString) rest
  end.

(** One step of [normalizeString]: [res] holds the segments kept so far,
    the last one first. An empty segment and [.] are dropped; [..]
    removes the segment before it, or is kept when there is none to
    remove and the path is relative. *)
Definition normalize_segment (allowAboveRoot : bool) (res : list string)
    (segment : string) : list string :=
  if String.eqb segment EmptyString || String.eqb segment "." then res
  else if String.eqb segment ".." then
    match res with
    | last_segment :: rest =>
        if String.eqb last_segment ".." then
          if allowAboveRoot then ".." :: res else res
        else rest
    | [] => if allowAboveRoot then [".."] else []
    end
  else segment :: res.

(** Segments joined by the separator. *)
Fixpoint join_segments (segments : list string) : string :=
  match segments with
  | [] => EmptyString
  | [segment] => segment
  | segment :: rest => segment +:+ "/" +:+ join_segments rest
  end.

Definition normalizeString (path : string) (allowAboveRoot : bool) : string :=
  join_segments
    (rev (fold_left (normalize_segment allowAboveRoot)
            (segments_from EmptyString path) [])).

Definition is_absolute (path : string) : bool :=
  match path with
  | String c _ => Ascii.eqb c "/"
  | EmptyString => false
  end.

Fixpoint trailing_separator (path : string) : bool :=
  match path with
  | EmptyString => false
  | String c EmptyString => Ascii.eqb c "/"
  | String _ rest => trailing_separator rest
  end.

(** [path.normalize]. *)
Definition normalize (path : string) : string :=
  if String.eqb path EmptyString then "."
  else
    let res := normalizeString path (negb (is_absolute path)) in
    if String.eqb res EmptyString then
      if is_absolute path then "/"
      else if trailing_separator path then "./" else "."
    else
      (if is_absolute path then "/" else EmptyString) +:+ res
        +:+ (if trailing_separator path then "/" else EmptyString).

(** [path.join] of two strings: the non-empty ones are put together with
    a separator and the result is normalized. *)
Definition path_join (dir name : string) : string :=
  match dir, name with
  | EmptyString, EmptyString => "."
  | EmptyString, _ => normalize name
  | _, EmptyString => normalize dir
  | _, _ => normalize (dir +:+ "/" +:+ name)
  end.

Definition CACHE_DIR (env : Env) : string := path_join (dirname env) "cache".

Definition quote : string := String "034"%char EmptyString.
Definition newline : string := String "010"%char EmptyString.

(** [JSON.stringify({ type })] for a type name without characters to
    escape. *)
Definition JSON_stringify_type (ty : string) : string :=
  "{" +:+ quote +:+ "type" +:+ quote +:+ ":" +:+ quote +:+ ty +:+ quote +:+ "}".

(** The TypeError of converting a value to a string, if there is one:
    only an object can fail to convert. *)
Definition template_error (env : Env) (v : js_value) : option JsError :=
  match v with
  | JObject _ => not_convertible env v
  | _ => None
  end.

(** A value inside a template literal: it is converted to a string where
    it stands, before the expressions after it are evaluated. *)
Definition template (env : Env) (v : js_value) : Js string :=
  match v with
  | JString s => ret s
  | _ =>
      match template_error env v with
      | Some e => throw e
      | None => ret (to_text env v)
      end
  end.

(** The delay of iteration [i], [2 ** i * 1000] milliseconds. *)
Definition backoff_delay (i : nat) : Z := 2 ^ Z.of_nat i * 1000.

Definition anti_bot_error : JsError :=
  mkError "403 Forbidden: Anti-bot system detected request.".

Definition api_failed_error (response : Response) : JsError :=
  mkError ("API failed: Status " +:+ pretty (status response)
             +:+ " " +:+ statusText response).

(** The two status checks on a response; a normal completion is the
    [return response]. *)
Definition check_status (response : Response) : Js Response :=
  if (status response =? 403)%N then throw anti_bot_error
  else if negb (ok response) then throw (api_failed_error response)
  else ret response.

(** The body of the [try] block of one iteration. *)
Definition attempt (env : Env) (url : string) (options : Options) (i : nat)
  : Js Response :=
  let* response := fetch env url options i in
  check_status response.

Definition retry_line (maxRetries i : nat) : string :=
  "[RETRY] Attempt " +:+ pretty (i + 1)%nat +:+ "/" +:+ pretty maxRetries
    +:+ ". Waiting " +:+ pretty (backoff_delay i / 1000)%Z +:+ "s...".

(** The log line and the wait that open iteration [i]. *)
Definition wait_before (maxRetries i : nat) : Js unit :=
  let delay := backoff_delay i in
  if (0 <? i)%nat then
    do* console_log (retry_line maxRetries i) in
    sleep delay
  else ret tt.

(** The error thrown after the loop. *)
Definition all_failed_error (maxRetries : nat) (lastError : JsError) : JsError :=
  mkError ("All " +:+ pretty maxRetries +:+ " attempts failed. Last error: "
             +:+ message lastError).

(** The [for] loop of [fetchWithRetry] from iteration [i] on, with [fuel]
    iterations left, and the [throw] after it. *)
Fixpoint retry_loop (maxRetries : nat) (env : Env) (url : string)
    (options : Options) (fuel i : nat) (lastError : option JsError)
  : Js Response :=
  match fuel with
  | O =>
      match lastError with
      | Some e => throw (all_failed_error maxRetries e)
      | None =>
          throw (mkError "Cannot read properties of null (reading 'message')")
      end
  | S fuel' =>
      do* wait_before maxRetries i in
      try_catch (attempt env url options i)
        (λ error,
           do* console_error ("Attempt failed: " +:+ message error) in
           retry_loop maxRetries env url options fuel' (S i) (Some error))
  end.

(** [fetchWithRetry] for a given value of the constant [MAX_RETRIES].
    The counter, the delays and the numbers in the messages are
    JavaScript numbers: they are the integers written here, printed in
    decimal, for every count of attempts up to 70, the script's 5
    included (from there on [2 ** i] prints in exponent notation, and
    from 1015 on the delay overflows). *)
Definition fetchWithRetry_max (maxRetries : nat) (env : Env) (url : string)
    (options : Options) (proxyUrl : string) : Js Response :=
  retry_loop maxRetries env url options maxRetries 0 None.

Definition fetchWithRetry : Env → string → Options → string → Js Response :=
  fetchWithRetry_max MAX_RETRIES.

Definition content_options (ty : string) (ts sig : js_value) : Options :=
  mkOptions (Some "POST")
    (HEADERS ++ [("x-timestamp", ts); ("x-signature", sig)])
    (Some (JSON_stringify_type ty)).

(** The [try] block of [fetchAndCacheData] up to the write: the fetch,
    the [data] field and its decoding. *)
Definition fetch_and_decode (env : Env) (ty : string) (ts sig : js_value)
  : Js (list Z) :=
  let* response :=
    fetchWithRetry env CONTENT_URL (content_options ty ts sig) PROXY_URL in
  let* rawJson := response_json response in
  let* base64Data := get_property rawJson "data" in
  if negb (truthy base64Data) then
    throw (mkError ("Data field missing in response for type: " +:+ ty))
  else
    let* buffer := Buffer_from env base64Data in
    ret (Buffer_toString buffer).

Definition fetchAndCacheData (env : Env) (ty fname : string)
    (ts sig : js_value) : Js unit :=
  let filePath := path_join (CACHE_DIR env) fname in
  try_catch
    (let* decodedContent := fetch_and_decode env ty ts sig in
     do* fs_writeFile env filePath decodedContent in
     console_log ("[SUCCESS] Cached " +:+ ty +:+ " data to " +:+ fname))
    (λ error,
       console_error ("[ERROR] Failed to fetch or decode " +:+ ty
                        +:+ " data: " +:+ message error)).

Definition token_options : Options := mkOptions None HEADERS None.

Definition set_lastUpdateTime (t : string) : Js unit := λ w,
  mkRun (Normal tt) (mkWorld (files w) t) [].

(** The first step of the [try] block of [runUpdateCycle]: the token
    fetch, the check of its two fields and the log line that reads them. *)
Definition acquire_token (env : Env) : Js (js_value * js_value) :=
  let* tokenResponse := fetchWithRetry env TOKEN_URL token_options PROXY_URL in
  let* tokenData := response_json tokenResponse in
  let* timestamp := destructure tokenData "timestamp" in
  let* signature := destructure tokenData "signature" in
  if negb (truthy timestamp) || negb (truthy signature) then
    throw (mkError "Token API did not return timestamp or signature.")
  else
    let* ts := template env timestamp in
    let* sig8 := js_substring signature 0 8 in
    do* console_log ("Token fetched successfully. TS: " +:+ ts
                       +:+ ", SIG: " +:+ sig8 +:+ "...") in
    ret (timestamp, signature).

(** The three items of a cycle, as [REQUEST_TYPES.map] starts them. *)
Definition update_promises (env : Env) (ts sig : js_value) : list (Js unit) :=
  map (λ req, fetchAndCacheData env (type req) (filename req) ts sig)
      REQUEST_TYPES.

(** The [try] block of [runUpdateCycle]. *)
Definition update_body (env : Env) : Js unit :=
  let* token := acquire_token env in
  let updatePromises := update_promises env (fst token) (snd token) in
  do* Promise_all updatePromises in
  console_log "--- Update cycle finished ---".

Definition runUpdateCycle (env : Env) : Js unit :=
  do* console_log (newline +:+ "--- Starting update cycle at " +:+ clock env 0
                     +:+ " ---") in
  do* set_lastUpdateTime (clock env 1) in
  try_catch (update_body env)
    (λ error,
       console_error ("[CRITICAL] Major update failure: " +:+ message error)).

(** The state at process start, over whatever the cache directory already
    holds. *)
Definition initial_world (cache : gmap string (list Z)) : World :=
  mkWorld cache "Never".

(** The handler of [GET /status]: the body of its JSON response. *)
Definition get_status : Js (gmap string js_value) := λ w,
  mkRun (Normal {[ "lastUpdate" := JString (lastUpdateTime w) ]}) w [].

(** The cycle run at start and by every tick of the interval timer, one
    environment per cycle; each cycle is taken to end before the next
    one starts. *)
Definition run_cycles (envs : list Env) (w : World) : World :=
  fold_left (λ w env, world (runUpdateCycle env w)) envs w.

(** ** Observing a run *)

(** The completion of one attempt, from the outcome of its fetch. *)
Definition classify (o : FetchOutcome) : Completion Response :=
  match o with
  | Rejects e => Throw e
  | Resolves r =>
      if (status r =? 403)%N then Throw anti_bot_error
      else if negb (ok r) then Throw (api_failed_error r)
      else Normal r
  end.

(** Attempt [i] of a request ends in the [catch] block. *)
Definition failed (env : Env) (url : string) (options : Options) (i : nat)
  : Prop :=
  ∃ e, classify (network env url options i) = Throw e.

(** The events that open iteration [i]. *)
Definition wait_events (maxRetries i : nat) : list Event :=
  if (0 <? i)%nat then
    [ConsoleLog (retry_line maxRetries i); SetTimeout (backoff_delay i)]
  else [].

(** The delays waited, the requests sent and the writes issued, in order. *)
Definition timeouts (evs : list Event) : list Z :=
  omap (λ e, match e with SetTimeout ms => Some ms | _ => None end) evs.

Definition fetched (evs : list Event) : list (string * Options) :=
  omap (λ e, match e with Fetch u o => Some (u, o) | _ => None end) evs.

Definition writes (evs : list Event) : list (string * list Z) :=
  omap (λ e, match e with WriteFile p t => Some (p, t) | _ => None end) evs.

Definition error_lines (evs : list Event) : list string :=
  omap (λ e, match e with ConsoleError l => Some l | _ => None end) evs.

(** A computation that neither reads nor changes the state. *)
Definition stateless {A} (m : Js A) : Prop :=
  ∀ w w', m w = mkRun (completion (m w')) w (events (m w')).

(** The cache file of a request type. *)
Definition cache_path (env : Env) (fname : string) : string :=
  path_join (CACHE_DIR env) fname.

Fixpoint no_separator (name : string) : bool :=
  match name with
  | EmptyString => true
  | String c rest => negb (Ascii.eqb c "/") && no_separator rest
  end.

(** A plain file name: one segment other than [.] and [..]. *)
Definition plain_name (name : string) : bool :=
  negb (String.eqb name EmptyString) && negb (String.eqb name ".")
    && negb (String.eqb name "..") && no_separator name.

(** Segments, each followed by the separator. *)
Definition slashed (segments : list string) : string :=
  foldr (λ segment acc, segment +:+ "/" +:+ acc) EmptyString segments.

(** What [path.join] puts before a plain name joined to a directory. *)
Definition dir_prefix (dir : string) : string :=
  match dir with
  | EmptyString => EmptyString
  | _ =>
      (if is_absolute dir then "/" else EmptyString)
        +:+ slashed (rev (fold_left (normalize_segment (negb (is_absolute dir)))
                            (segments_from EmptyString dir) []))
  end.

(** What one item leaves in its cache file: the bytes written, when the
    decode succeeded and the write was accepted. *)
Definition item_result (env : Env) (ty fname : string) (ts sig : js_value)
    (w : World) : option (list Z) :=
  match completion (fetch_and_decode env ty ts sig w) with
  | Normal text =>
      match disk env (cache_path env fname) with
      | None => Some (Utf8.encode text)
      | Some _ => None
      end
  | Throw _ => None
  end.

(** The effect of one item on the cache files. *)
Definition cache_item (env : Env) (ts sig : js_value) (w : World)
    (fs : gmap string (list Z)) (req : RequestType) : gmap string (list Z) :=
  match item_result env (type req) (filename req) ts sig w with
  | Some bytes => <[cache_path env (filename req) := bytes]> fs
  | None => fs
  end.

(** The write one item issues, if its decode succeeds. *)
Definition item_writes (env : Env) (ts sig : js_value) (w : World)
    (req : RequestType) : list (string * list Z) :=
  match completion (fetch_and_decode env (type req) ts sig w) with
  | Normal text => [(cache_path env (filename req), text)]
  | Throw _ => []
  end.

Definition start_line (env : Env) : string :=
  newline +:+ "--- Starting update cycle at " +:+ clock env 0 +:+ " ---".

Definition critical_line (e : JsError) : string :=
  "[CRITICAL] Major update failure: " +:+ message e.

(** The bytes of a string of ASCII characters. *)
Definition bytes_of_string (s : string) : list Z :=
  map (λ c, Z.of_N (N_of_ascii c)) (list_ascii_of_string s).

(** The files one cycle writes: what it leaves in an empty cache. *)
Definition written (env : Env) : gmap string (list Z) :=
  files (world (runUpdateCycle env (initial_world ∅))).

(** The bytes most recently written to a path over a run of cycles. *)
Definition latest_write (envs : list Env) (path : string) : option (list Z) :=
  foldl (λ acc env, match written env !! path with
                    | Some bytes => Some bytes
                    | None => acc
                    end) None envs.

(** Follows the spec's words, "encoding T to base64": the standard
    base64 text of the UTF-8 bytes of [T]. *)
Definition base64_of_text (text : list Z) : string :=
  Base64.encode (Utf8.encode text).

(** ** Sample surroundings

    Concrete environments on which the statements below are run. *)

Definition json_ok (props : list (string * js_value)) : FetchOutcome :=
  Resolves (mkResponse 200 "OK" (BodyValue (list_to_map props))).

(** The text of the values the samples use: whole numbers, booleans and
    plain objects. *)
Definition sample_text (v : js_value) : string :=
  match v with
  | JUndefined => "undefined"
  | JNull => "null"
  | JBool true => "true"
  | JBool false => "false"
  | JNumber x => pretty (Qnum x)
  | JString s => s
  | JObject _ => "[object Object]"
  end.

(** How the message of [Buffer.from]'s TypeError describes them. *)
Definition sample_received (v : js_value) : string :=
  match v with
  | JBool _ => "type boolean (" +:+ sample_text v +:+ ")"
  | JNumber _ => "type number (" +:+ sample_text v +:+ ")"
  | JString s => "type string ('" +:+ s +:+ "')"
  | JObject _ => "an instance of Object"
  | _ => sample_text v
  end.

Definition sample_env (token : nat → FetchOutcome)
    (content : string → nat → FetchOutcome) : Env :=
  mkEnv "/srv/app"
    (λ url options i,
       if String.eqb url TOKEN_URL then token i
       else content (default EmptyString (body options)) i)
    (λ _, None)
    (λ k, match k with O => "10:00:00" | S _ => "10:00:01" end)
    sample_text
    (λ _, None)
    (λ v, mkError ("The first argument must be of type string or an instance "
                     +:+ "of Buffer, ArrayBuffer, or Array or an Array-like "
                     +:+ "Object. Received " +:+ sample_received v)).

Definition sample_token : nat → FetchOutcome :=
  λ _, json_ok [("timestamp", JString "123"); ("signature", JString "abcdef")].

Definition connection_reset : FetchOutcome := Rejects (mkError "ECONNRESET").

(** Five failures, then a success. *)
Definition sixth_time_lucky (i : nat) : FetchOutcome :=
  if (i <? 5)%nat then connection_reset else sample_token i.

Definition flaky_env : Env := sample_env sixth_time_lucky (λ _ _, connection_reset).

(** The token lacks its signature. *)
Definition unsigned_env : Env :=
  sample_env (λ _, json_ok [("timestamp", JString "123")])
             (λ _ _, json_ok [("data", JString "QQ==")]).

(** [up] and [completed] answer, [live] is refused every time. *)
Definition live_down_env : Env :=
  sample_env sample_token
    (λ payload _,
       if String.eqb payload (JSON_stringify_type "up") then
         json_ok [("data", JString "QQ==")]
       else if String.eqb payload (JSON_stringify_type "completed") then
         json_ok [("data", JString "Qg==")]
       else Resolves (mkResponse 403 "Forbidden" BodyNull)).

(** Every content response carries a number in its [data] field. *)
Definition numeric_data_env : Env :=
  sample_env sample_token (λ _ _, json_ok [("data", JNumber (5 # 1))]).

(** ** The earlier script, server.js

    The same pipeline without the retrying fetch: every request of a
    cycle is sent once, so what it gets is outcome number 0 of that
    request. *)

(** The steps between the fetch and the write, the same in both scripts:
    the body, its [data] field and the decoding. *)
Definition decode_response (env : Env) (ty : string) (response : Response)
  : Js (list Z) :=
  let* rawJson := response_json response in
  let* base64Data := get_property rawJson "data" in
  if negb (truthy base64Data) then
    throw (mkError ("Data field missing in response for type: " +:+ ty))
  else
    let* buffer := Buffer_from env base64Data in
    ret (Buffer_toString buffer).

Module ServerJs.

Definition HEADERS : list (string * js_value) :=
  [ ("Content-Type", JString "application/json");
    ("User-Agent", JString ("Mozilla/5.0 (Windows NT 10.0; Win64; x64) "
       +:+ "AppleWebKit/537.36 (KHTML, like Gecko) Chrome/120.0.0.0 Safari/537.36"));
    ("Referer", JString "https://rolexcoderz.in/live-classes");
    ("Accept", JString "application/json, text/plain, */*");
    ("Accept-Language", JString "en-US,en;q=0.9");
    ("Connection", JString "keep-alive") ].

Definition content_options (ty : string) (ts sig : js_value) : Options :=
  mkOptions (Some "POST")
    (HEADERS ++ [("x-timestamp", ts); ("x-signature", sig)])
    (Some (JSON_stringify_type ty)).

Definition content_failed_error (response : Response) : JsError :=
  mkError ("Content API failed! Status: " +:+ pretty (status response)
             +:+ " " +:+ statusText response).

(** The [try] block of [fetchAndCacheData] up to the write. *)
Definition fetch_and_decode (env : Env) (ty : string) (ts sig : js_value)
  : Js (list Z) :=
  let* response := fetch env CONTENT_URL (content_options ty ts sig) 0 in
  if negb (ok response) then throw (content_failed_error response)
  else decode_response env ty response.

Definition fetchAndCacheData (env : Env) (ty fname : string)
    (ts sig : js_value) : Js unit :=
  let filePath := path_join (CACHE_DIR env) fname in
  try_catch
    (let* decodedContent := fetch_and_decode env ty ts sig in
     do* fs_writeFile env filePath decodedContent in
     console_log ("[SUCCESS] Cached " +:+ ty +:+ " data to " +:+ fname))
    (λ error,
       console_error ("[ERROR] Failed to fetch or decode " +:+ ty
                        +:+ " data: " +:+ message error)).

Definition token_options : Options := mkOptions None HEADERS None.

Definition token_failed_error (response : Response) : JsError :=
  mkError ("Token API failed: " +:+ pretty (status response)
             +:+ " " +:+ statusText response).

(** The first step of the [try] block of [runUpdateCycle]. *)
Definition acquire_token (env : Env) : Js (js_value * js_value) :=
  let* tokenResponse := fetch env TOKEN_URL token_options 0 in
  if negb (ok tokenResponse) then throw (token_failed_error tokenResponse)
  else
    let* tokenData := response_json tokenResponse in
    let* timestamp := destructure tokenData "timestamp" in
    let* signature := destructure tokenData "signature" in
    if negb (truthy timestamp) || negb (truthy signature) then
      throw (mkError "Token API did not return timestamp or signature.")
    else
      let* ts := template env timestamp in
      let* sig8 := js_substring signature 0 8 in
      do* console_log ("Token fetched. TS: " +:+ ts
                         +:+ ", SIG: " +:+ sig8 +:+ "...") in
      ret (timestamp, signature).

Definition update_promises (env : Env) (ts sig : js_value) : list (Js unit) :=
  map (λ req, fetchAndCacheData env (type req) (filename req) ts sig)
      REQUEST_TYPES.

Definition update_body (env : Env) : Js unit :=
  let* token := acquire_token env in
  let updatePromises := update_promises env (fst token) (snd token) in
  do* Promise_all updatePromises in
  console_log "--- Update cycle finished ---".

Definition runUpdateCycle (env : Env) : Js unit :=
  do* console_log (newline +:+ "--- Starting update cycle at " +:+ clock env 0
                     +:+ " ---") in
  do* set_lastUpdateTime (clock env 1) in
  try_catch (update_body env)
    (λ error,
       console_error ("[CRITICAL] Major update failure: " +:+ message error)).

End ServerJs.

(** ** Further observations and surroundings *)

(** The time a run spends waiting on its timers, in milliseconds. *)
Definition total_wait (evs : list Event) : Z := foldr Z.add 0%Z (timeouts evs).

(** The three cache paths. *)
Definition cache_paths (env : Env) : list string :=
  map (λ req, cache_path env (filename req)) REQUEST_TYPES.

(** The line an item logs when it fails. *)
Definition item_error_line (ty : string) (e : JsError) : string :=
  "[ERROR] Failed to fetch or decode " +:+ ty +:+ " data: " +:+ message e.



(** The token carries a number where its signature should be. *)
Definition numeric_signature_env : Env :=
  sample_env
    (λ _, json_ok [("timestamp", JNumber (1700000000 # 1));
                   ("signature", JNumber (12345 # 1))])
    (λ _ _, json_ok [("data", JString "QQ==")]).

(** The token carries an object that cannot be converted to a string
    where its timestamp should be, and a number as signature. *)
Definition unprintable_timestamp_env : Env :=
  mkEnv (dirname numeric_signature_env)
    (λ url options i,
       if String.eqb url TOKEN_URL then
         json_ok [("timestamp", JObject None); ("signature", JNumber (12345 # 1))]
       else network numeric_signature_env url options i)
    (disk numeric_signature_env) (clock numeric_signature_env)
    (to_text numeric_signature_env)
    (λ _, Some (mkError "Cannot convert object to primitive value"))
    (invalid_arg_type numeric_signature_env).

(** Every content response carries an empty payload. *)
Definition empty_data_env : Env :=
  sample_env sample_token (λ _ _, json_ok [("data", JString EmptyString)]).

(** Every content response carries the single byte E9, which is not
    UTF-8. *)
Definition latin1_data_env : Env :=
  sample_env sample_token (λ _ _, json_ok [("data", JString "6Q==")]).

(** The token endpoint answers 502 every time. *)
Definition token_down_env : Env :=
  sample_env (λ _, Resolves (mkResponse 502 "Bad Gateway" BodyNull))
             (λ _ _, json_ok [("data", JString "QQ==")]).

(** The token endpoint answers 503 once, then the token. *)
Definition slow_start_env : Env :=
  sample_env
    (λ i, match i with
          | O => Resolves (mkResponse 503 "Service Unavailable" BodyNull)
          | S _ => sample_token i
          end)
    (λ _ _, json_ok [("data", JString "QQ==")]).

(** * Facts

    ** Bounded checks *)

Lemma all_below_spec n P :
  all_below n P = true → ∀ x : Z, (0 ≤ x < Z.of_nat n)%Z → P x = true.
Proof.
  induction n as [|k IH]; simpl; intros Hall x Hx; [lia|].
  apply andb_prop in Hall as [Hk Hrest].
  destruct (decide (x = Z.of_nat k)) as [->|Hne]; [done|].
  apply IH; [done|lia].
Qed.

(** ** Base64 round trip *)

Module Base64Facts.
Import Base64.
Local Open Scope Z_scope.

Lemma unbase64_char n : 0 ≤ n < 64 → unbase64 (base64_char n) = Some n.
Proof.
  intros Hn.
  assert (H : all_below 64 (λ n, bool_decide (unbase64 (base64_char n) = Some n)) = true)
    by (vm_compute; reflexivity).
  eapply all_below_spec in H; [|exact Hn].
  by apply bool_decide_eq_true in H.
Qed.

Lemma unbase64_pad : unbase64 pad = None.
Proof. reflexivity. Qed.

Lemma group_check_all x y : is_byte x → is_byte y → group_check x y = true.
Proof.
  intros Hx Hy.
  assert (H : all_below 256 (λ x, all_below 256 (λ y, group_check x y)) = true)
    by (vm_compute; reflexivity).
  eapply all_below_spec in H; [|exact Hx].
  eapply all_below_spec in H; [|exact Hy]. exact H.
Qed.

Ltac group_facts x y Hx Hy :=
  let H := fresh "G" in
  pose proof (group_check_all x y Hx Hy) as H;
  unfold group_check in H;
  repeat (apply andb_prop in H as [H ?]);
  repeat match goal with
         | K : bool_decide _ = true |- _ => apply bool_decide_eq_true in K
         end.

Lemma is_byte_0 : is_byte 0.
Proof. unfold is_byte; lia. Qed.

Lemma sextets_range b0 b1 :
  is_byte b0 → is_byte b1 →
  (0 ≤ sextet0 b0 < 64) ∧ (0 ≤ sextet1 b0 b1 < 64) ∧
  (0 ≤ sextet2 b0 b1 < 64) ∧ (0 ≤ sextet3 b0 < 64).
Proof. intros H0 H1. group_facts b0 b1 H0 H1. auto. Qed.

Lemma octet0_sextets b0 b1 :
  is_byte b0 → is_byte b1 → octet0 (sextet0 b0) (sextet1 b0 b1) = b0.
Proof. intros H0 H1. group_facts b0 b1 H0 H1. auto. Qed.

Lemma octet1_sextets b0 b1 b2 :
  is_byte b0 → is_byte b1 → is_byte b2 →
  octet1 (sextet1 b0 b1) (sextet2 b1 b2) = b1.
Proof.
  intros H0 H1 H2. unfold octet1.
  group_facts b0 b1 H0 H1. group_facts b1 b2 H1 H2.
  congruence.
Qed.

Lemma octet2_sextets b1 b2 :
  is_byte b1 → is_byte b2 → octet2 (sextet2 b1 b2) (sextet3 b2) = b2.
Proof.
  intros H1 H2. unfold octet2.
  group_facts b1 b2 H1 H2. group_facts b2 b1 H2 H1.
  congruence.
Qed.

(** Induction over byte sequences three bytes at a time, the way the
    encoder consumes them. *)
Lemma list_ind_by3 {A} (P : list A → Prop) :
  P [] → (∀ a, P [a]) → (∀ a b, P [a; b]) →
  (∀ a b c l, P l → P (a :: b :: c :: l)) →
  ∀ l, P l.
Proof.
  intros H0 H1 H2 H3 l.
  cut (P l ∧ (∀ a, P (a :: l)) ∧ (∀ a b, P (a :: b :: l))); [tauto|].
  induction l as [|x l (IHa & IHb & IHc)]; repeat split; auto.
Qed.

Lemma base64_decode_from_encode hi bs :
  Forall is_byte bs → decode_from 0 hi (encode bs) = bs.
Proof.
  revert hi. induction bs as [|b0|b0 b1|b0 b1 b2 rest IH] using list_ind_by3;
    intros hi Hbs.
  - reflexivity.
  - apply Forall_cons in Hbs as [H0 _].
    destruct (sextets_range b0 0 H0 is_byte_0) as (R0 & R1 & _).
    cbn [encode decode_from].
    rewrite !unbase64_char by done. rewrite unbase64_pad. cbn.
    by rewrite octet0_sextets by auto using is_byte_0.
  - apply Forall_cons in Hbs as [H0 Hbs]. apply Forall_cons in Hbs as [H1 _].
    destruct (sextets_range b0 b1 H0 H1) as (R0 & R1 & _).
    destruct (sextets_range b1 0 H1 is_byte_0) as (_ & _ & R2 & _).
    cbn [encode decode_from].
    rewrite !unbase64_char by done. rewrite unbase64_pad. cbn.
    rewrite octet0_sextets by done.
    by rewrite (octet1_sextets b0 b1 0) by auto using is_byte_0.
  - apply Forall_cons in Hbs as [H0 Hbs]. apply Forall_cons in Hbs as [H1 Hbs].
    apply Forall_cons in Hbs as [H2 Hbs].
    destruct (sextets_range b0 b1 H0 H1) as (R0 & R1 & _).
    destruct (sextets_range b1 b2 H1 H2) as (_ & _ & R2 & _).
    destruct (sextets_range b2 b2 H2 H2) as (_ & _ & _ & R3).
    cbn [encode decode_from].
    rewrite !unbase64_char by done.
    rewrite octet0_sextets, octet1_sextets, octet2_sextets by done.
    by rewrite IH.
Qed.

(** Decoding undoes encoding on every byte sequence. *)
Lemma base64_decode_encode bs : Forall is_byte bs → decode (encode bs) = bs.
Proof. apply base64_decode_from_encode. Qed.

(** Every decoded value is a byte. *)
Lemma unbase64_range c n : unbase64 c = Some n → 0 ≤ n < 64.
Proof.
  unfold unbase64.
  repeat match goal with
         | |- context [if ?b then _ else _] => destruct b eqn:?
         end; intros [= <-]; try lia;
    repeat match goal with
           | H : (_ && _) = true |- _ => apply andb_prop in H as [? ?]
           end; lia.
Qed.

Lemma octets_range hi lo :
  0 ≤ hi < 64 → 0 ≤ lo < 64 →
  is_byte (octet0 hi lo) ∧ is_byte (octet1 hi lo) ∧ is_byte (octet2 hi lo).
Proof.
  intros Hhi Hlo.
  assert (H : all_below 64 (λ x, all_below 64 (λ y, octets_check x y)) = true)
    by (vm_compute; reflexivity).
  eapply all_below_spec in H; [|exact Hhi].
  eapply all_below_spec in H; [|exact Hlo].
  unfold octets_check in H.
  repeat (apply andb_prop in H as [H ?]).
  repeat match goal with
         | K : bool_decide _ = true |- _ => apply bool_decide_eq_true in K
         end.
  done.
Qed.

Lemma decode_from_bytes s :
  ∀ phase hi, 0 ≤ hi < 64 → Forall is_byte (decode_from phase hi s).
Proof.
  induction s as [|c s IH]; intros phase hi Hhi; cbn [decode_from]; [constructor|].
  destruct (unbase64 c) as [lo|] eqn:Hc.
  - pose proof (unbase64_range c lo Hc) as Hlo.
    destruct (octets_range hi lo Hhi Hlo) as (B0 & B1 & B2).
    destruct phase as [|[|[|phase]]]; auto.
  - destruct (Ascii.eqb c pad); [constructor|auto].
Qed.

Lemma decode_bytes s : Forall is_byte (decode s).
Proof. apply decode_from_bytes. lia. Qed.

End Base64Facts.

(** ** UTF-8 round trip *)

Module Utf8Facts.
Import Utf8.
Local Open Scope Z_scope.

(** *** From bit operations to arithmetic *)

Lemma land_mul_pow2_low x y k :
  0 ≤ k → 0 ≤ y < 2 ^ k → Z.land (x * 2 ^ k) y = 0.
Proof.
  intros Hk Hy. apply Z.bits_inj'. intros n Hn.
  rewrite Z.land_spec, Z.bits_0.
  destruct (Z.lt_ge_cases n k) as [Hlt|Hge].
  - by rewrite Z.mul_pow2_bits_low.
  - destruct (decide (y = 0)) as [->|Hy0].
    + by rewrite Z.bits_0, andb_false_r.
    + rewrite (Z.bits_above_log2 y n), andb_false_r; [done|lia|].
      apply Z.lt_le_trans with k; [|done].
      apply Z.log2_lt_pow2; lia.
Qed.

Lemma lor_mul_pow2_low x y k :
  0 ≤ k → 0 ≤ y < 2 ^ k → Z.lor (x * 2 ^ k) y = x * 2 ^ k + y.
Proof.
  intros Hk Hy.
  pose proof (Z.add_lor_land (x * 2 ^ k) y) as H.
  rewrite land_mul_pow2_low in H by done. lia.
Qed.

Lemma land_0x3F x : Z.land x 0x3F = x mod 64.
Proof. change 0x3F with (Z.ones 6). by rewrite Z.land_ones. Qed.

Lemma land_0x1F x : Z.land x 0x1F = x mod 32.
Proof. change 0x1F with (Z.ones 5). by rewrite Z.land_ones. Qed.

Lemma land_0xF x : Z.land x 0xF = x mod 16.
Proof. change 0xF with (Z.ones 4). by rewrite Z.land_ones. Qed.

Lemma land_0x7 x : Z.land x 0x7 = x mod 8.
Proof. change 0x7 with (Z.ones 3). by rewrite Z.land_ones. Qed.

Lemma shiftl_6 x : Z.shiftl x 6 = x * 2 ^ 6.
Proof. by rewrite Z.shiftl_mul_pow2. Qed.

Lemma lor_0x80 y : 0 ≤ y < 64 → Z.lor 0x80 y = 128 + y.
Proof. intros Hy. change 0x80 with (2 * 2 ^ 6). rewrite lor_mul_pow2_low; lia. Qed.

Lemma lor_0xC0 y : 0 ≤ y < 32 → Z.lor 0xC0 y = 192 + y.
Proof. intros Hy. change 0xC0 with (6 * 2 ^ 5). rewrite lor_mul_pow2_low; lia. Qed.

Lemma lor_0xE0 y : 0 ≤ y < 16 → Z.lor 0xE0 y = 224 + y.
Proof. intros Hy. change 0xE0 with (14 * 2 ^ 4). rewrite lor_mul_pow2_low; lia. Qed.

Lemma lor_0xF0 y : 0 ≤ y < 8 → Z.lor 0xF0 y = 240 + y.
Proof. intros Hy. change 0xF0 with (30 * 2 ^ 3). rewrite lor_mul_pow2_low; lia. Qed.

Lemma lor_acc a b : Z.lor (Z.shiftl a 6) (Z.land b 0x3F) = a * 64 + b mod 64.
Proof.
  rewrite shiftl_6, land_0x3F, lor_mul_pow2_low; [lia|lia|].
  apply Z.mod_pos_bound. lia.
Qed.

Lemma shiftr_div x k : 0 ≤ k → Z.shiftr x k = x / 2 ^ k.
Proof. intros. by rewrite Z.shiftr_div_pow2. Qed.

(** *** The decoder on well-formed input *)

Lemma lead_ascii b : b ≤ 0x7F → lead b = ([b], start).
Proof. intros Hb. unfold lead. by rewrite (proj2 (Z.leb_le _ _)). Qed.

Lemma lead_two b :
  0xC2 ≤ b ≤ 0xDF → lead b = ([], mkState 1 (b mod 32) 0x80 0xBF).
Proof.
  intros Hb. unfold lead.
  rewrite (proj2 (Z.leb_gt _ _)) by lia.
  rewrite (proj2 (Z.leb_le 0xC2 _)), (proj2 (Z.leb_le _ 0xDF)) by lia.
  by rewrite land_0x1F.
Qed.

Lemma lead_three b :
  0xE0 ≤ b ≤ 0xEF →
  lead b = ([], mkState 2 (b mod 16)
                  (if b =? 0xE0 then 0xA0 else 0x80)
                  (if b =? 0xED then 0x9F else 0xBF)).
Proof.
  intros Hb. unfold lead.
  rewrite (proj2 (Z.leb_gt _ 0x7F)) by lia.
  rewrite (proj2 (Z.leb_gt _ 0xDF)), andb_false_r by lia.
  rewrite (proj2 (Z.leb_le 0xE0 _)), (proj2 (Z.leb_le _ 0xEF)) by lia.
  by rewrite land_0xF.
Qed.

Lemma lead_four b :
  0xF0 ≤ b ≤ 0xF4 →
  lead b = ([], mkState 3 (b mod 8)
                  (if b =? 0xF0 then 0x90 else 0x80)
                  (if b =? 0xF4 then 0x8F else 0xBF)).
Proof.
  intros Hb. unfold lead.
  rewrite (proj2 (Z.leb_gt _ 0x7F)) by lia.
  rewrite (proj2 (Z.leb_gt _ 0xDF)), andb_false_r by lia.
  rewrite (proj2 (Z.leb_gt _ 0xEF)), andb_false_r by lia.
  rewrite (proj2 (Z.leb_le 0xF0 _)), (proj2 (Z.leb_le _ 0xF4)) by lia.
  by rewrite land_0x7.
Qed.

Lemma step_continue k a lo hi b :
  lo ≤ b ≤ hi →
  step (mkState (S k) a lo hi) b =
    match k with
    | O => ([a * 64 + b mod 64], start)
    | S _ => ([], mkState k (a * 64 + b mod 64) 0x80 0xBF)
    end.
Proof.
  intros Hb. unfold step. cbn [needed lower upper acc].
  rewrite (proj2 (Z.leb_le lo _)), (proj2 (Z.leb_le _ hi)) by lia.
  cbn [andb]. by rewrite lor_acc.
Qed.

(** The bytes of a scalar value decode to that value, whatever follows. *)
Lemma utf8_decode_encode_cp cp rest :
  scalar cp → decode (encode_cp cp ++ rest) = cp :: decode rest.
Proof.
  intros Hcp. unfold decode, encode_cp.
  destruct (Z.ltb_spec cp 0x80) as [H1|H1].
  { cbn [app decode_from]. unfold step at 1. cbn [needed start].
    rewrite lead_ascii by lia. reflexivity. }
  destruct (Z.ltb_spec cp 0x800) as [H2|H2].
  { rewrite land_0x3F, shiftr_div by lia.
    rewrite lor_0xC0, lor_0x80 by (Z.div_mod_to_equations; lia).
    cbn [app decode_from]. unfold step at 1. cbn [needed start].
    rewrite lead_two by (Z.div_mod_to_equations; lia).
    rewrite step_continue by (Z.div_mod_to_equations; lia).
    cbn [app]. f_equal. Z.div_mod_to_equations; lia. }
  destruct (Z.ltb_spec cp 0x10000) as [H3|H3].
  { rewrite !land_0x3F, !shiftr_div by lia.
    rewrite lor_0xE0, !lor_0x80 by (Z.div_mod_to_equations; lia).
    cbn [app decode_from]. unfold step at 1. cbn [needed start].
    rewrite lead_three by (Z.div_mod_to_equations; lia).
    rewrite step_continue.
    2:{ destruct (Z.eqb_spec (224 + cp / 2 ^ 12) 0xE0);
        destruct (Z.eqb_spec (224 + cp / 2 ^ 12) 0xED);
        unfold scalar in Hcp; Z.div_mod_to_equations; lia. }
    rewrite step_continue by (Z.div_mod_to_equations; lia).
    cbn [app]. f_equal. Z.div_mod_to_equations; lia. }
  rewrite !land_0x3F, !shiftr_div by lia.
  assert (cp < 0x110000) by (unfold scalar in Hcp; lia).
  rewrite lor_0xF0, !lor_0x80 by (Z.div_mod_to_equations; lia).
  cbn [app decode_from]. unfold step at 1. cbn [needed start].
  rewrite lead_four by (Z.div_mod_to_equations; lia).
  rewrite step_continue.
  2:{ destruct (Z.eqb_spec (240 + cp / 2 ^ 18) 0xF0);
      destruct (Z.eqb_spec (240 + cp / 2 ^ 18) 0xF4);
      Z.div_mod_to_equations; lia. }
  rewrite !step_continue by (Z.div_mod_to_equations; lia).
  cbn [app]. f_equal. Z.div_mod_to_equations; lia.
Qed.

(** UTF-8 fidelity: decoding the encoding of a text gives the text. *)
Lemma utf8_decode_encode text : Forall scalar text → decode (encode text) = text.
Proof.
  induction 1 as [|cp text Hcp _ IH]; [reflexivity|].
  unfold encode in *. cbn [flat_map].
  by rewrite utf8_decode_encode_cp, IH.
Qed.

(** Every encoded value is a byte. *)
Lemma encode_cp_bytes cp : scalar cp → Forall Base64.is_byte (encode_cp cp).
Proof.
  intros Hcp. unfold encode_cp, Base64.is_byte.
  assert (0 ≤ cp < 0x110000) by (unfold scalar in Hcp; lia).
  destruct (Z.ltb_spec cp 0x80); [repeat constructor; lia|].
  destruct (Z.ltb_spec cp 0x800).
  { rewrite land_0x3F, shiftr_div by lia.
    rewrite lor_0xC0, lor_0x80 by (Z.div_mod_to_equations; lia).
    repeat constructor; Z.div_mod_to_equations; lia. }
  destruct (Z.ltb_spec cp 0x10000).
  { rewrite !land_0x3F, !shiftr_div by lia.
    rewrite lor_0xE0, !lor_0x80 by (Z.div_mod_to_equations; lia).
    repeat constructor; Z.div_mod_to_equations; lia. }
  rewrite !land_0x3F, !shiftr_div by lia.
  rewrite lor_0xF0, !lor_0x80 by (Z.div_mod_to_equations; lia).
  repeat constructor; Z.div_mod_to_equations; lia.
Qed.

Lemma encode_bytes text : Forall scalar text → Forall Base64.is_byte (encode text).
Proof.
  induction 1 as [|cp text Hcp _ IH]; [constructor|].
  unfold encode in *. cbn [flat_map].
  apply Forall_app. split; [by apply encode_cp_bytes|done].
Qed.

(** *** The decoder on any input: only scalar values come out *)

Lemma scalar_replacement : scalar replacement.
Proof. unfold scalar, replacement. lia. Qed.

Lemma lead_sound b :
  0 ≤ b → Forall scalar (lead b).1 ∧ sound (lead b).2.
Proof.
  intros Hb. unfold lead.
  destruct (Z.leb_spec b 0x7F).
  { split; [|done]. constructor; [|constructor]. unfold scalar. lia. }
  destruct ((0xC2 <=? b) && (b <=? 0xDF)) eqn:E2.
  { apply andb_prop in E2 as [?%Z.leb_le ?%Z.leb_le].
    split; [constructor|]. unfold sound. cbn. rewrite land_0x1F.
    intros b1 Hb1. unfold scalar. Z.div_mod_to_equations. lia. }
  destruct ((0xE0 <=? b) && (b <=? 0xEF)) eqn:E3.
  { apply andb_prop in E3 as [?%Z.leb_le ?%Z.leb_le].
    split; [constructor|]. unfold sound. cbn. rewrite land_0xF.
    intros b1 Hb1 b2 Hb2. unfold scalar.
    destruct (Z.eqb_spec b 0xE0); destruct (Z.eqb_spec b 0xED);
      Z.div_mod_to_equations; lia. }
  destruct ((0xF0 <=? b) && (b <=? 0xF4)) eqn:E4.
  { apply andb_prop in E4 as [?%Z.leb_le ?%Z.leb_le].
    split; [constructor|]. unfold sound. cbn. rewrite land_0x7.
    intros b1 Hb1 b2 Hb2 b3 Hb3. unfold scalar.
    destruct (Z.eqb_spec b 0xF0); destruct (Z.eqb_spec b 0xF4);
      Z.div_mod_to_equations; lia. }
  split; [|done]. constructor; [apply scalar_replacement|constructor].
Qed.

Lemma step_sound st b :
  sound st → 0 ≤ b → Forall scalar (step st b).1 ∧ sound (step st b).2.
Proof.
  intros Hst Hb. unfold step, sound in *.
  destruct (needed st) as [|k] eqn:Hk; [by apply lead_sound|].
  destruct (Z.leb_spec (lower st) b), (Z.leb_spec b (upper st)); cbn [andb].
  { specialize (Hst b ltac:(lia)). rewrite lor_acc.
    destruct k; [split; [constructor; [exact Hst|constructor]|done]|].
    split; [constructor|exact Hst]. }
  all: destruct (lead_sound b Hb) as [Hout Hnext];
    destruct (lead b) as [out st']; cbn [fst snd] in *;
    split; [constructor; [apply scalar_replacement|done]|done].
Qed.

Lemma decode_from_scalar bs :
  ∀ st, sound st → Forall (λ b, 0 ≤ b) bs → Forall scalar (decode_from st bs).
Proof.
  induction bs as [|b bs IH]; intros st Hst Hbs; cbn [decode_from].
  - destruct (needed st); [constructor|].
    constructor; [apply scalar_replacement|constructor].
  - apply Forall_cons in Hbs as [Hb Hbs].
    destruct (step_sound st b Hst Hb) as [Hout Hnext].
    destruct (step st b) as [out st']. cbn [fst snd] in *.
    apply Forall_app. split; [done|by apply IH].
Qed.

(** Whatever the bytes, decoding gives a text. *)
Lemma decode_scalar bs : Forall Base64.is_byte bs → Forall scalar (decode bs).
Proof.
  intros Hbs. apply decode_from_scalar; [done|].
  eapply Forall_impl; [exact Hbs|]. unfold Base64.is_byte. intros; lia.
Qed.

End Utf8Facts.

(** ** The codecs on sample inputs *)

Example decode_skips_what_is_not_base64 :
  Base64.decode ("SGVs bG8" +:+ newline +:+ "=ignored")
    = bytes_of_string "Hello".
Proof. reflexivity. Qed.

Example decode_reads_the_url_safe_alphabet :
  Base64.decode "-_8" = Base64.decode "+/8" ∧ Base64.decode "+/8" = [251; 255]%Z.
Proof. split; reflexivity. Qed.

Example decode_replaces_ill_formed_bytes :
  Utf8.decode [0xE2; 0x82; 0xAC; 0xFF; 0xED; 0xA0; 0x80; 0x41; 0xC3]%Z
    = [0x20AC; 0xFFFD; 0xFFFD; 0xFFFD; 0xFFFD; 0x41; 0xFFFD]%Z.
Proof. reflexivity. Qed.

Example encode_euro_sign :
  base64_of_text [0x20AC]%Z = "4oKs".
Proof. reflexivity. Qed.

(** ** Running computations *)

Lemma run_eta {A} (r : Run A) : r = mkRun (completion r) (world r) (events r).
Proof. by destruct r. Qed.

Lemma bind_normal {A B} (m : Js A) (k : A → Js B) w a w' evs :
  m w = mkRun (Normal a) w' evs →
  bind m k w = mkRun (completion (k a w')) (world (k a w')) (evs ++ events (k a w')).
Proof. intros H. unfold bind. by rewrite H. Qed.

Lemma bind_throw {A B} (m : Js A) (k : A → Js B) w e w' evs :
  m w = mkRun (Throw e) w' evs → bind m k w = mkRun (Throw e) w' evs.
Proof. intros H. unfold bind. by rewrite H. Qed.

Lemma try_catch_normal {A} (m : Js A) h w a w' evs :
  m w = mkRun (Normal a) w' evs → try_catch m h w = mkRun (Normal a) w' evs.
Proof. intros H. unfold try_catch. by rewrite H. Qed.

Lemma try_catch_throw {A} (m : Js A) h w e w' evs :
  m w = mkRun (Throw e) w' evs →
  try_catch m h w =
    mkRun (completion (h e w')) (world (h e w')) (evs ++ events (h e w')).
Proof. intros H. unfold try_catch. by rewrite H. Qed.

Lemma console_log_run l w : console_log l w = mkRun (Normal tt) w [ConsoleLog l].
Proof. reflexivity. Qed.

Lemma console_error_run l w :
  console_error l w = mkRun (Normal tt) w [ConsoleError l].
Proof. reflexivity. Qed.

Lemma set_lastUpdateTime_run t w :
  set_lastUpdateTime t w = mkRun (Normal tt) (mkWorld (files w) t) [].
Proof. reflexivity. Qed.

Lemma stateless_run {A} (m : Js A) w w' :
  stateless m →
  completion (m w) = completion (m w') ∧ world (m w) = w
  ∧ events (m w) = events (m w').
Proof. intros H. by rewrite (H w w'). Qed.

Lemma stateless_ret {A} (a : A) : stateless (ret a).
Proof. done. Qed.

Lemma stateless_throw {A} e : stateless (@throw A e).
Proof. done. Qed.

Lemma stateless_emit e : stateless (emit e).
Proof. done. Qed.

Lemma stateless_bind {A B} (m : Js A) (k : A → Js B) :
  stateless m → (∀ a, stateless (k a)) → stateless (bind m k).
Proof.
  intros Hm Hk w w'. unfold bind.
  destruct (stateless_run m w w' Hm) as (-> & -> & ->).
  destruct (stateless_run m w' w' Hm) as (_ & -> & _).
  destruct (completion (m w')) as [a|e]; cbn [completion world events]; [|done].
  by rewrite (Hk a w w').
Qed.

Lemma stateless_try_catch {A} (m : Js A) h :
  stateless m → (∀ e, stateless (h e)) → stateless (try_catch m h).
Proof.
  intros Hm Hh w w'. unfold try_catch.
  destruct (stateless_run m w w' Hm) as (Hc & Hw & He).
  destruct (stateless_run m w' w' Hm) as (_ & Hw' & _).
  rewrite Hc, Hw, Hw', He.
  destruct (completion (m w')) as [a|e] eqn:E; cbn [completion world events].
  - rewrite (Hm w w'). by rewrite E.
  - by rewrite (Hh e w w').
Qed.

Lemma stateless_fetch env url options i : stateless (fetch env url options i).
Proof. done. Qed.

Lemma stateless_check_status r : stateless (check_status r).
Proof.
  unfold check_status.
  destruct (status r =? 403)%N; [apply stateless_throw|].
  destruct (negb (ok r)); [apply stateless_throw|apply stateless_ret].
Qed.

Lemma stateless_wait_before N i : stateless (wait_before N i).
Proof. unfold wait_before. by destruct (0 <? i)%nat. Qed.

Lemma stateless_retry_loop N env url options fuel i lastError :
  stateless (retry_loop N env url options fuel i lastError).
Proof.
  revert i lastError. induction fuel as [|fuel IH]; intros i lastError.
  - destruct lastError; apply stateless_throw.
  - cbn [retry_loop].
    apply stateless_bind; [apply stateless_wait_before|intros _].
    apply stateless_try_catch.
    + apply stateless_bind; [apply stateless_fetch|apply stateless_check_status].
    + intros e. apply stateless_bind; [apply stateless_emit|intros _; apply IH].
Qed.

Lemma stateless_fetchWithRetry env url options proxy :
  stateless (fetchWithRetry env url options proxy).
Proof. apply stateless_retry_loop. Qed.

Lemma stateless_response_json r : stateless (response_json r).
Proof. unfold response_json. by destruct (body_json r). Qed.

Lemma stateless_get_property b name : stateless (get_property b name).
Proof. by destruct b. Qed.

Lemma stateless_destructure b name : stateless (destructure b name).
Proof. by destruct b. Qed.

Lemma stateless_Buffer_from env v : stateless (Buffer_from env v).
Proof. unfold Buffer_from. by destruct (buffer_of v). Qed.

Lemma stateless_template env v : stateless (template env v).
Proof.
  unfold template. destruct v; try apply stateless_ret;
    destruct (template_error env _); first [apply stateless_throw|apply stateless_ret].
Qed.

Lemma stateless_js_substring v a b : stateless (js_substring v a b).
Proof. by destruct v. Qed.

Lemma stateless_fetch_and_decode env ty ts sig :
  stateless (fetch_and_decode env ty ts sig).
Proof.
  unfold fetch_and_decode.
  apply stateless_bind; [apply stateless_fetchWithRetry|intros r].
  apply stateless_bind; [apply stateless_response_json|intros b].
  apply stateless_bind; [apply stateless_get_property|intros v].
  destruct (negb (truthy v)); [apply stateless_throw|].
  apply stateless_bind; [apply stateless_Buffer_from|intros; apply stateless_ret].
Qed.

Lemma stateless_acquire_token env : stateless (acquire_token env).
Proof.
  unfold acquire_token.
  apply stateless_bind; [apply stateless_fetchWithRetry|intros r].
  apply stateless_bind; [apply stateless_response_json|intros b].
  apply stateless_bind; [apply stateless_destructure|intros ts].
  apply stateless_bind; [apply stateless_destructure|intros sig].
  destruct (_ || _); [apply stateless_throw|].
  apply stateless_bind; [apply stateless_template|intros t].
  apply stateless_bind; [apply stateless_js_substring|intros s8].
  apply stateless_bind; [apply stateless_emit|intros; apply stateless_ret].
Qed.

(** ** The retry loop *)

Lemma attempt_run env url options i w :
  attempt env url options i w =
    mkRun (classify (network env url options i)) w [Fetch url options].
Proof.
  unfold attempt, bind, fetch, classify, check_status. cbn.
  destruct (network env url options i) as [e|r]; cbn; [done|].
  destruct (status r =? 403)%N; [done|].
  by destruct (negb (ok r)).
Qed.

Lemma wait_before_run N i w :
  wait_before N i w = mkRun (Normal tt) w (wait_events N i).
Proof. unfold wait_before, wait_events. by destruct (0 <? i)%nat. Qed.

(** An iteration whose attempt succeeds returns its response. *)
Lemma retry_loop_success N env url options fuel i lastError w r :
  classify (network env url options i) = Normal r →
  retry_loop N env url options (S fuel) i lastError w =
    mkRun (Normal r) w (wait_events N i ++ [Fetch url options]).
Proof.
  intros Hc. cbn [retry_loop].
  erewrite bind_normal by apply wait_before_run.
  erewrite try_catch_normal by (rewrite attempt_run, Hc; reflexivity).
  done.
Qed.

(** An iteration whose attempt fails logs the error and goes on with the
    next one, whatever the failure was. *)
Lemma retry_loop_failure N env url options fuel i lastError w e :
  classify (network env url options i) = Throw e →
  retry_loop N env url options (S fuel) i lastError w =
    let r := retry_loop N env url options fuel (S i) (Some e) w in
    mkRun (completion r) (world r)
      (wait_events N i
         ++ Fetch url options :: ConsoleError ("Attempt failed: " +:+ message e)
         :: events r).
Proof.
  intros Hc. cbn [retry_loop].
  erewrite bind_normal by apply wait_before_run.
  erewrite try_catch_throw by (rewrite attempt_run, Hc; reflexivity).
  erewrite bind_normal by reflexivity.
  reflexivity.
Qed.

Lemma retry_loop_exhausted N env url options i e w :
  retry_loop N env url options 0 i (Some e) w =
    mkRun (Throw (all_failed_error N e)) w [].
Proof. done. Qed.

Lemma classify_normal o r :
  classify o = Normal r →
  o = Resolves r ∧ status r ≠ 403%N ∧ ok r = true.
Proof.
  destruct o as [e|r']; cbn; [done|].
  destruct (N.eqb_spec (status r') 403); [done|].
  destruct (ok r') eqn:Hok; cbn; [|done].
  intros [= ->]. auto.
Qed.

Lemma ok_range r : ok r = true ↔ (200 ≤ status r < 300)%N.
Proof.
  unfold ok. rewrite andb_true_iff, N.leb_le, N.ltb_lt. tauto.
Qed.

(** The first attempt that succeeds gives the result. *)
Lemma retry_loop_first_success N env url options k :
  ∀ fuel i lastError w r,
    k < fuel →
    (∀ j, j < k → failed env url options (i + j)) →
    classify (network env url options (i + k)) = Normal r →
    completion (retry_loop N env url options fuel i lastError w) = Normal r.
Proof.
  induction k as [|k IH]; intros fuel i lastError w r Hk Hfail Hok;
    (destruct fuel as [|fuel]; [lia|]).
  - rewrite Nat.add_0_r in Hok. by erewrite retry_loop_success.
  - destruct (Hfail 0) as [e He]; [lia|]. rewrite Nat.add_0_r in He.
    erewrite retry_loop_failure by done. cbn [completion].
    apply IH; [lia| |by rewrite Nat.add_succ_comm].
    intros j Hj. rewrite Nat.add_succ_comm. apply Hfail. lia.
Qed.

(** When every remaining attempt fails, the loop ends in the aggregate
    error built from the error of the last attempt. *)
Lemma retry_loop_all_fail N env url options fuel :
  ∀ i lastError w e,
    (∀ j, j < fuel → failed env url options (i + j)) →
    match fuel with
    | O => lastError = Some e
    | S f => classify (network env url options (i + f)) = Throw e
    end →
    completion (retry_loop N env url options fuel i lastError w)
      = Throw (all_failed_error N e).
Proof.
  induction fuel as [|fuel IH]; intros i lastError w e Hfail Hlast.
  - by subst.
  - destruct (Hfail 0) as [e0 He0]; [lia|]. rewrite Nat.add_0_r in He0.
    erewrite retry_loop_failure by done. cbn [completion].
    apply IH.
    + intros j Hj. rewrite Nat.add_succ_comm. apply Hfail. lia.
    + destruct fuel as [|f].
      * rewrite Nat.add_0_r in Hlast. congruence.
      * by rewrite Nat.add_succ_comm.
Qed.

(** A response that is returned came from an attempt that passed both
    status checks. *)
Lemma retry_loop_returns N env url options fuel :
  ∀ i lastError w r,
    completion (retry_loop N env url options fuel i lastError w) = Normal r →
    ∃ k, k < fuel ∧ classify (network env url options (i + k)) = Normal r.
Proof.
  induction fuel as [|fuel IH]; intros i lastError w r Hret.
  - by destruct lastError.
  - destruct (classify (network env url options i)) as [r'|e] eqn:Hc.
    + erewrite retry_loop_success in Hret by done.
      injection Hret as ->. exists 0. rewrite Nat.add_0_r. split; [lia|done].
    + erewrite retry_loop_failure in Hret by done. cbn [completion] in Hret.
      apply IH in Hret as (k & Hk & Hok).
      exists (S k). rewrite <- Nat.add_succ_comm. split; [lia|done].
Qed.

(** *** Traces of the retry loop *)

Lemma timeouts_app evs1 evs2 : timeouts (evs1 ++ evs2) = timeouts evs1 ++ timeouts evs2.
Proof. apply omap_app. Qed.

Lemma fetched_app evs1 evs2 : fetched (evs1 ++ evs2) = fetched evs1 ++ fetched evs2.
Proof. apply omap_app. Qed.

Lemma writes_app evs1 evs2 : writes (evs1 ++ evs2) = writes evs1 ++ writes evs2.
Proof. apply omap_app. Qed.

Lemma wait_events_pos N i :
  1 ≤ i →
  wait_events N i = [ConsoleLog (retry_line N i); SetTimeout (backoff_delay i)].
Proof. intros Hi. unfold wait_events. by destruct i; [lia|]. Qed.

(** From an iteration [i0 ≥ 1] on: the wait that precedes attempt [i] is
    [backoff_delay i], and the waits before it are those of the
    iterations [i0 .. i - 1]. *)
Lemma retry_loop_wait N env url options fuel :
  ∀ i0 lastError w i,
    1 ≤ i0 ≤ i → i < i0 + fuel →
    (∀ j, i0 ≤ j < i → failed env url options j) →
    ∃ before after,
      events (retry_loop N env url options fuel i0 lastError w) =
        before ++ SetTimeout (backoff_delay i) :: Fetch url options :: after
      ∧ length (fetched before) = i - i0
      ∧ timeouts before = map backoff_delay (seq i0 (i - i0)).
Proof.
  induction fuel as [|fuel IH]; intros i0 lastError w i Hi0 Hi Hfail; [lia|].
  destruct (decide (i = i0)) as [->|Hne].
  - exists [ConsoleLog (retry_line N i0)].
    destruct (classify (network env url options i0)) as [r|e] eqn:Hc.
    + erewrite retry_loop_success by done. cbn [events].
      rewrite wait_events_pos by lia. rewrite Nat.sub_diag. by eexists.
    + erewrite retry_loop_failure by done. cbn [events].
      rewrite wait_events_pos by lia. rewrite Nat.sub_diag. by eexists.
  - destruct (Hfail i0) as [e He]; [lia|].
    erewrite retry_loop_failure by done. cbn [events].
    destruct (IH (S i0) (Some e) w i) as (before & after & -> & Hlen & Htime);
      [lia|lia|intros j Hj; apply Hfail; lia|].
    rewrite wait_events_pos by lia.
    exists ([ConsoleLog (retry_line N i0); SetTimeout (backoff_delay i0);
             Fetch url options; ConsoleError ("Attempt failed: " +:+ message e)]
            ++ before), after.
    split; [by rewrite <- app_assoc|].
    rewrite fetched_app, timeouts_app, length_app, Hlen, Htime.
    replace (i - i0) with (S (i - S i0)) by lia. done.
Qed.

(** From an iteration [i0 ≥ 1] on, with every attempt failing: one wait
    per iteration. *)
Lemma retry_loop_all_fail_timeouts N env url options fuel :
  ∀ i0 lastError w,
    1 ≤ i0 →
    (∀ j, i0 ≤ j < i0 + fuel → failed env url options j) →
    timeouts (events (retry_loop N env url options fuel i0 lastError w))
      = map backoff_delay (seq i0 fuel).
Proof.
  induction fuel as [|fuel IH]; intros i0 lastError w Hi0 Hfail.
  - by destruct lastError.
  - destruct (Hfail i0) as [e He]; [lia|].
    erewrite retry_loop_failure by done. cbn [events].
    rewrite wait_events_pos by lia. cbn.
    f_equal. apply IH; [lia|]. intros j Hj. apply Hfail. lia.
Qed.

(** ** Claims about [fetchWithRetry] *)

(** C1, as stated, fails on the code: with the five attempts the script
    configures, a fetch that fails five times and would succeed the sixth
    time is never tried a sixth time; the call ends in the aggregate
    error. *)
Lemma C1_no_attempt_after_the_last :
  MAX_RETRIES = 5
  ∧ map (λ j, classify (network flaky_env TOKEN_URL token_options j)) (seq 0 5)
      = replicate 5 (Throw (mkError "ECONNRESET"))
  ∧ (∃ r, classify (network flaky_env TOKEN_URL token_options 5) = Normal r)
  ∧ completion (fetchWithRetry flaky_env TOKEN_URL token_options PROXY_URL
                  (initial_world ∅))
      = Throw (mkError "All 5 attempts failed. Last error: ECONNRESET").
Proof.
  split; [reflexivity|]. split; [vm_compute; reflexivity|].
  split; [eexists; vm_compute; reflexivity|].
  vm_compute. reflexivity.
Qed.

(** C1, amended: with [N] attempts configured, a call whose fetch fails
    [k < N] times and succeeds on the next attempt returns that response,
    and a call whose [N] attempts all fail raises the aggregate error,
    whose message ends with the message of the error of the last
    attempt. *)
Theorem C1_fetchWithRetry_within_attempts N env url options proxy w :
  (∀ k r,
     k < N →
     (∀ j, j < k → failed env url options j) →
     classify (network env url options k) = Normal r →
     completion (fetchWithRetry_max N env url options proxy w) = Normal r)
  ∧ (∀ e,
       0 < N →
       (∀ j, j < N → failed env url options j) →
       classify (network env url options (N - 1)) = Throw e →
       completion (fetchWithRetry_max N env url options proxy w)
         = Throw (mkError ("All " +:+ pretty N
                             +:+ " attempts failed. Last error: " +:+ message e))).
Proof.
  split.
  - intros k r Hk Hfail Hok.
    by apply (retry_loop_first_success N env url options k).
  - intros e HN Hfail Hlast.
    apply (retry_loop_all_fail N env url options N 0 None w e); [done|].
    destruct N as [|n]; [lia|]. by rewrite Nat.sub_1_r in Hlast.
Qed.

Lemma flaky_env_fails j :
  j < 5 → failed flaky_env TOKEN_URL token_options j.
Proof.
  intros Hj. exists (mkError "ECONNRESET").
  do 5 (destruct j as [|j]; [reflexivity|]). lia.
Defined.

Lemma C1_witness :
  completion (fetchWithRetry_max 6 flaky_env TOKEN_URL token_options PROXY_URL
                (initial_world ∅))
    = classify (sample_token 5)
  ∧ completion (fetchWithRetry_max 5 flaky_env TOKEN_URL token_options PROXY_URL
                  (initial_world ∅))
      = Throw (mkError ("All " +:+ pretty 5 +:+ " attempts failed. Last error: "
                          +:+ "ECONNRESET")).
Proof.
  split.
  - apply (proj1 (C1_fetchWithRetry_within_attempts 6 flaky_env TOKEN_URL
                    token_options PROXY_URL (initial_world ∅)) 5);
      [lia|apply flaky_env_fails|reflexivity].
  - apply (proj2 (C1_fetchWithRetry_within_attempts 5 flaky_env TOKEN_URL
                    token_options PROXY_URL (initial_world ∅))
             (mkError "ECONNRESET"));
      [lia|apply flaky_env_fails|reflexivity].
Defined.

(** C2: the delay waited before attempt [i] (counted from 0, [i > 0]) is
    exactly [2^i] seconds, for every [i] in [1, N-1]: in the trace of a
    call that reaches attempt [i], the fetch of attempt [i] (the one with
    [i] fetches before it) comes right after a timer of [2^i * 1000]
    milliseconds, and the timers before that one are those of the
    attempts [1 .. i-1]. *)
Theorem C2_backoff_delay_before_attempt N env url options proxy w i :
  1 ≤ i < N →
  (∀ j, j < i → failed env url options j) →
  ∃ before after,
    events (fetchWithRetry_max N env url options proxy w) =
      before ++ SetTimeout (2 ^ Z.of_nat i * 1000) :: Fetch url options :: after
    ∧ length (fetched before) = i
    ∧ timeouts before = map (λ j, 2 ^ Z.of_nat j * 1000)%Z (seq 1 (i - 1)).
Proof.
  intros Hi Hfail. unfold fetchWithRetry_max.
  destruct N as [|n]; [lia|].
  destruct (Hfail 0) as [e He]; [lia|].
  erewrite retry_loop_failure by done. cbn [events wait_events Nat.ltb Nat.leb app].
  destruct (retry_loop_wait (S n) env url options n 1 (Some e) w i)
    as (before & after & Hev & Hlen & Htime);
    [lia|lia|intros j Hj; apply Hfail; lia|].
  exists (Fetch url options :: ConsoleError ("Attempt failed: " +:+ message e)
            :: before), after.
  rewrite Hev. split; [done|].
  change (fetched (?a :: ?b :: before)) with ((url, options) :: fetched before).
  change (timeouts (?a :: ?b :: before)) with (timeouts before).
  cbn [length]. rewrite Hlen, Htime.
  split; [lia|done].
Qed.

Lemma C2_witness :
  ∃ before after,
    events (fetchWithRetry_max 5 flaky_env TOKEN_URL token_options PROXY_URL
              (initial_world ∅)) =
      before ++ SetTimeout (2 ^ Z.of_nat 3 * 1000)
        :: Fetch TOKEN_URL token_options :: after
    ∧ length (fetched before) = 3
    ∧ timeouts before = map (λ j, 2 ^ Z.of_nat j * 1000)%Z (seq 1 (3 - 1)).
Proof.
  apply (C2_backoff_delay_before_attempt 5 flaky_env TOKEN_URL token_options
           PROXY_URL (initial_world ∅) 3); [lia|].
  intros j Hj. apply flaky_env_fails. lia.
Defined.

(** C9, as stated, fails on the code: a call whose five attempts all fail
    waits four times, 2s, 4s, 8s and 16s; the 1s computed in the first
    iteration is not waited. *)
Lemma C9_four_delays_not_five :
  MAX_RETRIES = 5
  ∧ map (λ j, classify (network flaky_env TOKEN_URL token_options j)) (seq 0 5)
      = replicate 5 (Throw (mkError "ECONNRESET"))
  ∧ timeouts (events (fetchWithRetry flaky_env TOKEN_URL token_options PROXY_URL
                        (initial_world ∅)))
      = [2000; 4000; 8000; 16000]%Z
  ∧ [2000; 4000; 8000; 16000]%Z ≠ [1000; 2000; 4000; 8000; 16000]%Z.
Proof.
  split; [reflexivity|]. split; [vm_compute; reflexivity|].
  split; [vm_compute; reflexivity|]. discriminate.
Qed.

(** C9, amended: for a call with the script's five attempts in which
    every attempt fails, the successive delays waited are 2s, 4s, 8s and
    16s, one before each attempt but the first. *)
Theorem C9_delays_of_five_failed_attempts env url options proxy w :
  (∀ j, j < 5 → failed env url options j) →
  timeouts (events (fetchWithRetry env url options proxy w))
    = [2000; 4000; 8000; 16000]%Z.
Proof.
  intros Hfail. unfold fetchWithRetry, fetchWithRetry_max, MAX_RETRIES.
  destruct (Hfail 0) as [e He]; [lia|].
  erewrite retry_loop_failure by done. cbn [events wait_events Nat.ltb Nat.leb app].
  change (timeouts (?a :: ?b :: ?l)) with (timeouts l).
  rewrite retry_loop_all_fail_timeouts; [done|lia|].
  intros j Hj. apply Hfail. lia.
Qed.

Lemma C9_witness :
  timeouts (events (fetchWithRetry flaky_env TOKEN_URL token_options PROXY_URL
                      (initial_world ∅)))
    = [2000; 4000; 8000; 16000]%Z.
Proof.
  apply (C9_delays_of_five_failed_attempts flaky_env TOKEN_URL token_options
           PROXY_URL (initial_world ∅)).
  apply flaky_env_fails.
Defined.

Lemma anti_bot_distinct r : anti_bot_error ≠ api_failed_error r.
Proof. discriminate. Qed.

(** C6: [fetchWithRetry] never returns a 403 response, whatever its body:
    a returned response has a 2xx status; a 403 response raises the
    anti-bot error, any other response outside 2xx raises the API-failure
    error, which is a different message; and after any of the three
    failures (a rejected fetch included) the iteration ends the same way:
    the message is logged and the loop goes on with the next attempt. *)
Theorem C6_403_is_never_success :
  (∀ N env url options proxy w r,
     completion (fetchWithRetry_max N env url options proxy w) = Normal r →
     status r ≠ 403%N ∧ (200 ≤ status r < 300)%N)
  ∧ (∀ r w, status r = 403%N →
            check_status r w = mkRun (Throw anti_bot_error) w [])
  ∧ (∀ r w, status r ≠ 403%N → ¬ (200 ≤ status r < 300)%N →
            check_status r w = mkRun (Throw (api_failed_error r)) w [])
  ∧ (∀ r, anti_bot_error ≠ api_failed_error r)
  ∧ (∀ N env url options fuel i lastError w e,
       network env url options i = Rejects e
       ∨ (∃ r, network env url options i = Resolves r
               ∧ status r = 403%N ∧ e = anti_bot_error)
       ∨ (∃ r, network env url options i = Resolves r
               ∧ status r ≠ 403%N ∧ ¬ (200 ≤ status r < 300)%N
               ∧ e = api_failed_error r) →
       retry_loop N env url options (S fuel) i lastError w =
         let next := retry_loop N env url options fuel (S i) (Some e) w in
         mkRun (completion next) (world next)
           (wait_events N i
              ++ Fetch url options
              :: ConsoleError ("Attempt failed: " +:+ message e)
              :: events next)).
Proof.
  split; [|split; [|split; [|split]]].
  - intros N env url options proxy w r Hret.
    apply retry_loop_returns in Hret as (k & _ & Hk).
    apply classify_normal in Hk as (_ & Hs & Hok). apply ok_range in Hok.
    split; [exact Hs|lia].
  - intros r w Hs. unfold check_status. by rewrite Hs.
  - intros r w Hs Hok. unfold check_status.
    destruct (N.eqb_spec (status r) 403); [done|].
    destruct (ok r) eqn:E; [|done]. apply ok_range in E. lia.
  - apply anti_bot_distinct.
  - intros N env url options fuel i lastError w e Hcase.
    apply retry_loop_failure.
    destruct Hcase as [->|[(r & -> & Hs & ->)|(r & -> & Hs & Hok & ->)]]; cbn.
    + done.
    + by rewrite Hs.
    + destruct (N.eqb_spec (status r) 403); [done|].
      destruct (ok r) eqn:E; [|done]. apply ok_range in E. lia.
Qed.

Lemma C6_witness :
  (status (mkResponse 200 "OK" BodyNull) ≠ 403%N
   ∧ (200 ≤ status (mkResponse 200 "OK" BodyNull) < 300)%N)
  ∧ check_status (mkResponse 403 "Forbidden" BodyNull) (initial_world ∅)
      = mkRun (Throw anti_bot_error) (initial_world ∅) []
  ∧ check_status (mkResponse 500 "Internal Server Error" BodyNull) (initial_world ∅)
      = mkRun (Throw (mkError "API failed: Status 500 Internal Server Error"))
          (initial_world ∅) [].
Proof.
  pose proof C6_403_is_never_success as (Hret & H403 & Hother & _ & _).
  split; [|split].
  - apply (Hret 5 (sample_env (λ _, Resolves (mkResponse 200 "OK" BodyNull))
                     (λ _ _, connection_reset))
             TOKEN_URL token_options PROXY_URL (initial_world ∅)).
    reflexivity.
  - apply H403. reflexivity.
  - apply (Hother (mkResponse 500 "Internal Server Error" BodyNull)).
    + discriminate.
    + cbn. lia.
Defined.

(** ** One item: fetch, decode, cache *)

Arguments retry_loop : simpl never.
Arguments fetchWithRetry_max : simpl never.
Arguments fetchWithRetry : simpl never.

Lemma fetchAndCacheData_run env ty fname ts sig w :
  fetchAndCacheData env ty fname ts sig w =
    let d := fetch_and_decode env ty ts sig w in
    let path := cache_path env fname in
    match completion d with
    | Throw e =>
        mkRun (Normal tt) w
          (events d ++ [ConsoleError ("[ERROR] Failed to fetch or decode " +:+ ty
                                        +:+ " data: " +:+ message e)])
    | Normal text =>
        match disk env path with
        | None =>
            mkRun (Normal tt)
              (mkWorld (<[path := Utf8.encode text]> (files w)) (lastUpdateTime w))
              (events d ++ [WriteFile path text;
                            ConsoleLog ("[SUCCESS] Cached " +:+ ty +:+ " data to "
                                          +:+ fname)])
        | Some e =>
            mkRun (Normal tt) w
              (events d ++ [WriteFile path text;
                            ConsoleError ("[ERROR] Failed to fetch or decode " +:+ ty
                                            +:+ " data: " +:+ message e)])
        end
    end.
Proof.
  cbv zeta. unfold fetchAndCacheData, try_catch, bind, fs_writeFile, cache_path.
  destruct (stateless_run (fetch_and_decode env ty ts sig) w w
              (stateless_fetch_and_decode env ty ts sig)) as (_ & Hw & _).
  rewrite Hw.
  destruct (completion (fetch_and_decode env ty ts sig w)) as [text|e];
    cbn [completion world events]; [|done].
  destruct (disk env (path_join (CACHE_DIR env) fname)) as [e|];
    unfold console_log, console_error, emit;
    cbn [completion world events]; by rewrite <- ?app_assoc.
Qed.

(** The handler of an item never lets an error out. *)
Lemma fetchAndCacheData_completes env ty fname ts sig w :
  completion (fetchAndCacheData env ty fname ts sig w) = Normal tt.
Proof.
  rewrite fetchAndCacheData_run. cbv zeta.
  destruct (completion (fetch_and_decode env ty ts sig w)); [|done].
  by destruct (disk env (cache_path env fname)).
Qed.

Lemma fetchAndCacheData_world env ty fname ts sig w :
  world (fetchAndCacheData env ty fname ts sig w) =
    mkWorld (match item_result env ty fname ts sig w with
             | Some bytes => <[cache_path env fname := bytes]> (files w)
             | None => files w
             end) (lastUpdateTime w).
Proof.
  rewrite fetchAndCacheData_run. unfold item_result. cbv zeta.
  destruct (completion (fetch_and_decode env ty ts sig w));
    [|by destruct w].
  by destruct (disk env (cache_path env fname)); [destruct w|].
Qed.

Lemma item_result_stateless env ty fname ts sig w w' :
  item_result env ty fname ts sig w = item_result env ty fname ts sig w'.
Proof.
  unfold item_result.
  by destruct (stateless_run (fetch_and_decode env ty ts sig) w w'
                 (stateless_fetch_and_decode env ty ts sig)) as (-> & _ & _).
Qed.

(** *** What the retry loop and the decode emit *)

(** The only requests a retry loop sends are its own, and it writes no
    file. *)
Definition quiet (url : string) (options : Options) (e : Event) : Prop :=
  match e with
  | Fetch u o => u = url ∧ o = options
  | WriteFile _ _ => False
  | _ => True
  end.

Lemma quiet_wait_events url options N i : Forall (quiet url options) (wait_events N i).
Proof. unfold wait_events. destruct (0 <? i)%nat; repeat constructor. Qed.

Lemma retry_loop_quiet N env url options fuel :
  ∀ i lastError w,
    Forall (quiet url options)
      (events (retry_loop N env url options fuel i lastError w)).
Proof.
  induction fuel as [|fuel IH]; intros i lastError w.
  - destruct lastError; constructor.
  - destruct (classify (network env url options i)) as [r|e] eqn:Hc.
    + erewrite retry_loop_success by done. cbn [events].
      apply Forall_app. split; [apply quiet_wait_events|by repeat constructor].
    + erewrite retry_loop_failure by done. cbn [events].
      apply Forall_app. split; [apply quiet_wait_events|].
      repeat constructor. apply IH.
Qed.

Lemma quiet_writes url options evs :
  Forall (quiet url options) evs → writes evs = [].
Proof.
  induction 1 as [|e evs He _ IH]; [done|].
  destruct e; cbn in *; done.
Qed.

Lemma quiet_fetched url options evs u o :
  Forall (quiet url options) evs → (u, o) ∈ fetched evs → u = url ∧ o = options.
Proof.
  induction 1 as [|e evs He _ IH]; [by intros ?%elem_of_nil|].
  destruct e; cbn in *; try done.
  intros [[= -> ->]|?]%elem_of_cons; [done|auto].
Qed.

Lemma completion_bind {A B} (m : Js A) (k : A → Js B) w :
  completion (bind m k w) =
    match completion (m w) with
    | Normal a => completion (k a (world (m w)))
    | Throw e => Throw e
    end.
Proof. unfold bind. by destruct (completion (m w)). Qed.

Lemma events_bind {A B} (m : Js A) (k : A → Js B) w :
  events (bind m k w) =
    events (m w) ++ match completion (m w) with
                    | Normal a => events (k a (world (m w)))
                    | Throw e => []
                    end.
Proof. unfold bind. destruct (completion (m w)); cbn; by rewrite ?app_nil_r. Qed.

Lemma world_bind {A B} (m : Js A) (k : A → Js B) w :
  world (bind m k w) =
    match completion (m w) with
    | Normal a => world (k a (world (m w)))
    | Throw e => world (m w)
    end.
Proof. unfold bind. by destruct (completion (m w)). Qed.

(** After the fetch, the decode emits nothing. *)
Lemma fetch_and_decode_events env ty ts sig w :
  events (fetch_and_decode env ty ts sig w) =
    events (fetchWithRetry env CONTENT_URL (content_options ty ts sig) PROXY_URL w).
Proof.
  unfold fetch_and_decode. rewrite events_bind.
  destruct (completion (fetchWithRetry _ _ _ _ _)) as [r|e]; [|by rewrite app_nil_r].
  rewrite events_bind. unfold response_json.
  destruct (body_json r) as [e| |props]; cbn; try by rewrite app_nil_r.
  destruct (truthy _); cbn; [|by rewrite app_nil_r].
  unfold Buffer_from, bind. destruct (buffer_of _); cbn; by rewrite app_nil_r.
Qed.

Lemma fetch_and_decode_quiet env ty ts sig w :
  Forall (quiet CONTENT_URL (content_options ty ts sig))
    (events (fetch_and_decode env ty ts sig w)).
Proof. rewrite fetch_and_decode_events. apply retry_loop_quiet. Qed.

(** The decode of a response that carries a [data] field. *)
Lemma fetch_and_decode_data env ty ts sig w r props :
  completion (fetchWithRetry env CONTENT_URL (content_options ty ts sig)
                PROXY_URL w) = Normal r →
  body_json r = BodyValue props →
  completion (fetch_and_decode env ty ts sig w) =
    let data := default JUndefined (props !! "data") in
    if truthy data then
      match buffer_of data with
      | Some bytes => Normal (Buffer_toString bytes)
      | None => Throw (invalid_arg_type env data)
      end
    else Throw (mkError ("Data field missing in response for type: " +:+ ty)).
Proof.
  intros Hf Hb. unfold fetch_and_decode. rewrite completion_bind, Hf.
  unfold response_json. rewrite Hb. cbn.
  destruct (truthy _); cbn; [|done].
  unfold Buffer_from, bind. by destruct (buffer_of _).
Qed.

(** *** Token acquisition *)

Lemma acquire_token_quiet env w :
  Forall (quiet TOKEN_URL token_options) (events (acquire_token env w)).
Proof.
  unfold acquire_token. rewrite events_bind.
  apply Forall_app. split; [apply retry_loop_quiet|].
  destruct (completion (fetchWithRetry _ _ _ _ _)) as [r|e]; [|constructor].
  unfold response_json.
  destruct (body_json r) as [e| |props]; cbn; try constructor.
  destruct (_ || _); cbn; [constructor|].
  unfold template, template_error.
  destruct (default JUndefined (props !! "timestamp"));
    try destruct (not_convertible env _);
    destruct (default JUndefined (props !! "signature")); cbn;
    repeat constructor.
Qed.

(** A token response in which either field is absent or falsy. *)
Lemma acquire_token_missing env w r props :
  completion (fetchWithRetry env TOKEN_URL token_options PROXY_URL w) = Normal r →
  body_json r = BodyValue props →
  truthy (default JUndefined (props !! "timestamp")) = false
  ∨ truthy (default JUndefined (props !! "signature")) = false →
  completion (acquire_token env w)
    = Throw (mkError "Token API did not return timestamp or signature.").
Proof.
  intros Hf Hb Hfalsy. unfold acquire_token. rewrite completion_bind, Hf.
  unfold response_json. rewrite Hb. cbn.
  by destruct Hfalsy as [-> | ->]; rewrite ?orb_true_r.
Qed.

(** A token response with a truthy timestamp that converts to a string
    and a non-empty string as signature. *)
Lemma acquire_token_present env w r props ts c s :
  completion (fetchWithRetry env TOKEN_URL token_options PROXY_URL w) = Normal r →
  body_json r = BodyValue props →
  props !! "timestamp" = Some ts → truthy ts = true →
  template_error env ts = None →
  props !! "signature" = Some (JString (String c s)) →
  completion (acquire_token env w) = Normal (ts, JString (String c s)).
Proof.
  intros Hf Hb Hts Htruthy Hconv Hsig. unfold acquire_token.
  rewrite completion_bind, Hf.
  unfold response_json. rewrite Hb. cbn. rewrite Hts, Hsig. cbn.
  rewrite Htruthy. cbn. unfold template. rewrite Hconv.
  by destruct ts.
Qed.

(** ** One cycle *)

Lemma fetchAndCacheData_writes env ty fname ts sig w :
  writes (events (fetchAndCacheData env ty fname ts sig w)) =
    item_writes env ts sig w (mkRequestType ty fname EmptyString).
Proof.
  rewrite fetchAndCacheData_run. unfold item_writes. cbv zeta. cbn [type filename].
  pose proof (quiet_writes _ _ _ (fetch_and_decode_quiet env ty ts sig w)) as Hq.
  destruct (completion (fetch_and_decode env ty ts sig w));
    [destruct (disk env (cache_path env fname))|];
    cbn [events]; by rewrite writes_app, Hq.
Qed.

Lemma item_writes_stateless env ts sig w w' req :
  item_writes env ts sig w req = item_writes env ts sig w' req.
Proof.
  unfold item_writes.
  by destruct (stateless_run (fetch_and_decode env (type req) ts sig) w w'
                 (stateless_fetch_and_decode env (type req) ts sig))
    as (-> & _ & _).
Qed.

Lemma cache_item_stateless env ts sig w w' fs req :
  cache_item env ts sig w fs req = cache_item env ts sig w' fs req.
Proof.
  unfold cache_item. by rewrite (item_result_stateless _ _ _ _ _ w w').
Qed.

(** The items of a cycle, run one after the other: none lets an error
    out, each leaves its own effect on the files, and [lastUpdateTime]
    stays as it is. *)
Lemma Promise_all_items env ts sig w0 reqs :
  ∀ w,
    let r := Promise_all
               (map (λ req, fetchAndCacheData env (type req) (filename req) ts sig)
                    reqs) w in
    completion r = Normal tt
    ∧ files (world r) = foldl (cache_item env ts sig w0) (files w) reqs
    ∧ lastUpdateTime (world r) = lastUpdateTime w
    ∧ writes (events r) = concat (map (item_writes env ts sig w0) reqs).
Proof.
  induction reqs as [|req reqs IH]; intros w; [done|].
  cbn [map Promise_all]. cbv zeta. cbn [completion world events foldl concat].
  rewrite fetchAndCacheData_completes.
  specialize (IH (world (fetchAndCacheData env (type req) (filename req) ts sig w))).
  cbv zeta in IH. destruct IH as (-> & -> & -> & IHw).
  rewrite writes_app, IHw, fetchAndCacheData_writes.
  rewrite fetchAndCacheData_world. cbn [files lastUpdateTime].
  rewrite (cache_item_stateless env ts sig w0 w).
  rewrite (item_writes_stateless env ts sig w0 w).
  by destruct req.
Qed.

Lemma update_promises_run env ts sig w0 w :
  let r := Promise_all (update_promises env ts sig) w in
  completion r = Normal tt
  ∧ files (world r) = foldl (cache_item env ts sig w0) (files w) REQUEST_TYPES
  ∧ lastUpdateTime (world r) = lastUpdateTime w
  ∧ writes (events r) = concat (map (item_writes env ts sig w0) REQUEST_TYPES).
Proof. exact (Promise_all_items env ts sig w0 REQUEST_TYPES w). Qed.

Lemma update_body_run env w :
  update_body env w =
    let t := acquire_token env w in
    match completion t with
    | Throw e => mkRun (Throw e) w (events t)
    | Normal token =>
        let r := Promise_all (update_promises env (fst token) (snd token)) w in
        mkRun (Normal tt) (world r)
          (events t ++ events r ++ [ConsoleLog "--- Update cycle finished ---"])
    end.
Proof.
  cbv zeta. rewrite (run_eta (update_body env w)). unfold update_body.
  rewrite completion_bind, world_bind, events_bind.
  destruct (stateless_run (acquire_token env) w w (stateless_acquire_token env))
    as (_ & Hw & _).
  rewrite Hw.
  destruct (completion (acquire_token env w)) as [token|e];
    [|by rewrite app_nil_r].
  rewrite completion_bind, world_bind, events_bind.
  destruct (update_promises_run env token.1 token.2 w w) as (Hc & _).
  cbv zeta in Hc. rewrite Hc, !console_log_run.
  cbn [completion world events]. reflexivity.
Qed.

Lemma runUpdateCycle_run env w :
  runUpdateCycle env w =
    let w1 := mkWorld (files w) (clock env 1) in
    let t := acquire_token env w in
    match completion t with
    | Throw e =>
        mkRun (Normal tt) w1
          (ConsoleLog (start_line env)
             :: events t ++ [ConsoleError (critical_line e)])
    | Normal token =>
        let r := Promise_all (update_promises env (fst token) (snd token)) w1 in
        mkRun (Normal tt) (world r)
          (ConsoleLog (start_line env)
             :: events t ++ events r ++ [ConsoleLog "--- Update cycle finished ---"])
    end.
Proof.
  cbv zeta. rewrite (run_eta (runUpdateCycle env w)). unfold runUpdateCycle.
  rewrite !completion_bind, !world_bind, !events_bind.
  rewrite !console_log_run, !set_lastUpdateTime_run.
  cbn [completion world events app].
  set (w1 := mkWorld (files w) (clock env 1)).
  destruct (stateless_run (acquire_token env) w1 w (stateless_acquire_token env))
    as (Hc & _ & He).
  pose proof (update_body_run env w1) as Hbody. cbv zeta in Hbody.
  rewrite Hc, He in Hbody. fold (start_line env).
  destruct (completion (acquire_token env w)) as [token|e].
  - erewrite try_catch_normal by exact Hbody.
    cbn [completion world events]. reflexivity.
  - erewrite try_catch_throw by exact Hbody.
    rewrite !console_error_run. cbn [completion world events]. reflexivity.
Qed.

(** A cycle never lets an error out. *)
Lemma runUpdateCycle_completes env w : completion (runUpdateCycle env w) = Normal tt.
Proof.
  rewrite runUpdateCycle_run. cbv zeta.
  by destruct (completion (acquire_token env w)).
Qed.

(** After a cycle, [lastUpdateTime] is the time read at its start. *)
Lemma runUpdateCycle_lastUpdateTime env w :
  lastUpdateTime (world (runUpdateCycle env w)) = clock env 1.
Proof.
  rewrite runUpdateCycle_run. cbv zeta.
  destruct (completion (acquire_token env w)) as [token|e]; [|done].
  cbn [world].
  by destruct (update_promises_run env token.1 token.2 w
                 (mkWorld (files w) (clock env 1))) as (_ & _ & -> & _).
Qed.

(** The files after a cycle. *)
Lemma runUpdateCycle_files env w :
  files (world (runUpdateCycle env w)) =
    match completion (acquire_token env w) with
    | Throw _ => files w
    | Normal token =>
        foldl (cache_item env (fst token) (snd token) w) (files w) REQUEST_TYPES
    end.
Proof.
  rewrite runUpdateCycle_run. cbv zeta.
  destruct (completion (acquire_token env w)) as [token|e]; [|done].
  cbn [world].
  by destruct (update_promises_run env token.1 token.2 w
                 (mkWorld (files w) (clock env 1))) as (_ & -> & _).
Qed.

(** The writes a cycle issues. *)
Lemma runUpdateCycle_writes env w :
  writes (events (runUpdateCycle env w)) =
    match completion (acquire_token env w) with
    | Throw _ => []
    | Normal token =>
        concat (map (item_writes env (fst token) (snd token) w) REQUEST_TYPES)
    end.
Proof.
  rewrite runUpdateCycle_run. cbv zeta.
  pose proof (quiet_writes _ _ _ (acquire_token_quiet env w)) as Hq.
  destruct (completion (acquire_token env w)) as [token|e]; cbn [events].
  - change (writes (?a :: ?l)) with (writes l).
    rewrite !writes_app, Hq.
    destruct (update_promises_run env token.1 token.2 w
                (mkWorld (files w) (clock env 1))) as (_ & _ & _ & ->).
    by rewrite app_nil_r.
  - change (writes (?a :: ?l)) with (writes l).
    by rewrite writes_app, Hq.
Qed.

Lemma events_last_snoc (e : Event) evs1 evs2 x :
  last (e :: evs1 ++ evs2 ++ [x]) = Some x.
Proof.
  change (e :: evs1 ++ evs2 ++ [x]) with ((e :: evs1) ++ evs2 ++ [x]).
  by rewrite !app_assoc, last_snoc.
Qed.

(** ** Claims about the cycle *)

(** C3: when token acquisition fails, in particular when the token
    response lacks a truthy [timestamp] or [signature], the cycle ends
    early: the critical failure is its last event, no request goes to the
    content endpoint, nothing is written and no file changes. *)
Theorem C3_token_failure_ends_cycle env w :
  (∀ r props,
     completion (fetchWithRetry env TOKEN_URL token_options PROXY_URL w) = Normal r →
     body_json r = BodyValue props →
     truthy (default JUndefined (props !! "timestamp")) = false
     ∨ truthy (default JUndefined (props !! "signature")) = false →
     completion (acquire_token env w)
       = Throw (mkError "Token API did not return timestamp or signature."))
  ∧ (∀ e,
       completion (acquire_token env w) = Throw e →
       (∀ options, (CONTENT_URL, options) ∉ fetched (events (runUpdateCycle env w)))
       ∧ writes (events (runUpdateCycle env w)) = []
       ∧ files (world (runUpdateCycle env w)) = files w
       ∧ last (events (runUpdateCycle env w))
           = Some (ConsoleError ("[CRITICAL] Major update failure: " +:+ message e))
       ∧ completion (runUpdateCycle env w) = Normal tt).
Proof.
  split; [intros r props; apply acquire_token_missing|].
  intros e Hfail. repeat split.
  - intros options Hin.
    rewrite runUpdateCycle_run in Hin. cbv zeta in Hin. rewrite Hfail in Hin.
    cbn [events] in Hin.
    change (fetched (?a :: ?l)) with (fetched l) in Hin.
    rewrite fetched_app in Hin. cbn [fetched omap list_omap app] in Hin.
    rewrite app_nil_r in Hin.
    by apply (quiet_fetched _ _ _ _ _ (acquire_token_quiet env w)) in Hin as [? _].
  - by rewrite runUpdateCycle_writes, Hfail.
  - by rewrite runUpdateCycle_files, Hfail.
  - rewrite runUpdateCycle_run. cbv zeta. rewrite Hfail. cbn [events].
    change (?a :: ?l ++ [?x]) with ((a :: l) ++ [x]). apply last_snoc.
  - apply runUpdateCycle_completes.
Qed.

Lemma C3_witness :
  completion (acquire_token unsigned_env (initial_world ∅))
    = Throw (mkError "Token API did not return timestamp or signature.")
  ∧ writes (events (runUpdateCycle unsigned_env (initial_world ∅))) = []
  ∧ files (world (runUpdateCycle unsigned_env (initial_world ∅))) = ∅.
Proof.
  pose proof (C3_token_failure_ends_cycle unsigned_env (initial_world ∅))
    as [Hmissing Hends].
  assert (Hthrow : completion (acquire_token unsigned_env (initial_world ∅))
            = Throw (mkError "Token API did not return timestamp or signature.")).
  { eapply Hmissing; [vm_compute; reflexivity|reflexivity|].
    right. vm_compute. reflexivity. }
  split; [exact Hthrow|].
  destruct (Hends _ Hthrow) as (_ & Hwrites & Hfiles & _).
  split; [exact Hwrites|exact Hfiles].
Defined.

(** C7: every cycle overwrites [lastUpdateTime] at its start, before the
    [try] block runs, whatever the cycle then does (a token failure
    included: no hypothesis on the surroundings); the status query
    returns the value and changes nothing. *)
Theorem C7_lastUpdate_set_at_cycle_start env w :
  lastUpdateTime (world (runUpdateCycle env w)) = clock env 1
  ∧ (let rest := try_catch (update_body env)
                   (λ error, console_error ("[CRITICAL] Major update failure: "
                                              +:+ message error))
                   (mkWorld (files w) (clock env 1)) in
     runUpdateCycle env w =
       mkRun (completion rest) (world rest)
         (ConsoleLog (newline +:+ "--- Starting update cycle at " +:+ clock env 0
                        +:+ " ---") :: events rest))
  ∧ (∀ envs, lastUpdateTime (run_cycles (envs ++ [env]) w) = clock env 1)
  ∧ completion (get_status (world (runUpdateCycle env w)))
      = Normal {[ "lastUpdate" := JString (clock env 1) ]}
  ∧ (∀ w', world (get_status w') = w' ∧ events (get_status w') = []).
Proof.
  split; [apply runUpdateCycle_lastUpdateTime|].
  split.
  { cbv zeta. rewrite (run_eta (runUpdateCycle env w)) at 1. unfold runUpdateCycle.
    rewrite !completion_bind, !world_bind, !events_bind.
    rewrite !console_log_run, !set_lastUpdateTime_run.
    cbn [completion world events app]. reflexivity. }
  split.
  { intros envs. unfold run_cycles. rewrite fold_left_app. cbn [fold_left].
    apply runUpdateCycle_lastUpdateTime. }
  split; [|done].
  unfold get_status. cbn [completion]. by rewrite runUpdateCycle_lastUpdateTime.
Qed.

(** *** Cache paths *)

Lemma append_inv_head s a b : s +:+ a = s +:+ b → a = b.
Proof. induction s as [|c s IH]; cbn; [done|]. intros [= H]. auto. Qed.

Lemma string_append_assoc (a b c : string) : (a +:+ b) +:+ c = a +:+ (b +:+ c).
Proof.
  induction a as [|x a IH]; [done|].
  change (String x ((a +:+ b) +:+ c) = String x (a +:+ (b +:+ c))).
  by rewrite IH.
Qed.

Lemma string_append_nil_r (a : string) : a +:+ EmptyString = a.
Proof.
  induction a as [|x a IH]; [done|].
  change (String x (a +:+ EmptyString) = String x a). by rewrite IH.
Qed.

Lemma segments_from_app segment a b :
  segments_from segment (a +:+ String "/" b)
    = segments_from segment a ++ segments_from EmptyString b.
Proof.
  revert segment. induction a as [|c a IH]; intros segment; [done|].
  change (segments_from segment (String c (a +:+ String "/" b))
          = segments_from segment (String c a) ++ segments_from EmptyString b).
  cbn [segments_from]. destruct (Ascii.eqb c "/"); [|apply IH].
  by rewrite IH.
Qed.

Lemma segments_from_plain segment name :
  no_separator name = true → segments_from segment name = [segment +:+ name].
Proof.
  revert segment. induction name as [|c name IH]; intros segment Hname.
  - by rewrite string_append_nil_r.
  - cbn [no_separator] in Hname. apply andb_prop in Hname as [Hc Hname].
    cbn [segments_from]. apply negb_true_iff in Hc. rewrite Hc.
    rewrite (IH _ Hname), string_append_assoc. done.
Qed.

Lemma join_segments_snoc segments name :
  join_segments (segments ++ [name]) = slashed segments +:+ name.
Proof.
  induction segments as [|segment segments IH]; [done|].
  cbn [app slashed foldr]. fold (slashed segments).
  rewrite !string_append_assoc, <- IH.
  by destruct segments.
Qed.

Lemma trailing_separator_app a b :
  b ≠ EmptyString → trailing_separator (a +:+ b) = trailing_separator b.
Proof.
  intros Hb. induction a as [|c a IH]; [done|].
  rewrite <- IH.
  change (trailing_separator (String c (a +:+ b)) = trailing_separator (a +:+ b)).
  destruct a; [by destruct b|done].
Qed.

Lemma trailing_separator_plain name :
  no_separator name = true → trailing_separator name = false.
Proof.
  induction name as [|c name IH]; [done|].
  cbn [no_separator]. intros [Hc Hname]%andb_prop.
  apply negb_true_iff in Hc.
  destruct name; [done|]. by apply IH.
Qed.

Lemma plain_name_spec name :
  plain_name name = true →
  name ≠ EmptyString ∧ no_separator name = true
  ∧ ∀ allowAboveRoot res,
      normalize_segment allowAboveRoot res name = name :: res.
Proof.
  unfold plain_name. intros [[[H1 H2]%andb_prop H3]%andb_prop H4]%andb_prop.
  apply negb_true_iff in H1, H2, H3.
  split; [by intros ->|]. split; [done|].
  intros allowAboveRoot res. unfold normalize_segment.
  by rewrite H1, H2, H3.
Qed.

Lemma append_not_empty a b : b ≠ EmptyString → String.eqb (a +:+ b) EmptyString = false.
Proof. intros Hb. destruct a; [by destruct b|done]. Qed.

(** Joining a plain name to a directory appends it to a prefix that
    only depends on the directory. *)
Lemma path_join_plain dir name :
  plain_name name = true → path_join dir name = dir_prefix dir +:+ name.
Proof.
  intros (Hne & Hsep & Hstep)%plain_name_spec.
  assert (Habs : is_absolute name = false).
  { destruct name as [|c name]; [done|].
    cbn [no_separator] in Hsep. apply andb_prop in Hsep as [Hc _].
    by apply negb_true_iff in Hc. }
  destruct dir as [|c dir].
  - destruct name as [|x name]; [done|].
    cbn [path_join dir_prefix]. unfold normalize, normalizeString.
    rewrite Habs, (trailing_separator_plain _ Hsep), (segments_from_plain _ _ Hsep).
    cbn [fold_left negb]. rewrite Hstep. cbn [rev app join_segments].
    change (EmptyString +:+ String x name) with (String x name). cbn [String.eqb].
    change (EmptyString +:+ String x name +:+ EmptyString) with (String x name +:+ EmptyString).
    by rewrite string_append_nil_r.
  - destruct name as [|x name]; [done|].
    cbn [path_join dir_prefix]. unfold normalize.
    set (d := String c dir). set (n := String x name).
    assert (Hp : is_absolute (d +:+ "/" +:+ n) = is_absolute d) by done.
    rewrite Hp.
    rewrite (append_not_empty d ("/" +:+ n)) by done.
    unfold normalizeString.
    change (d +:+ "/" +:+ n) with (d +:+ String "/" n).
    rewrite segments_from_app, (segments_from_plain _ _ Hsep), fold_left_app.
    cbn [fold_left]. change (EmptyString +:+ n) with n. rewrite Hstep.
    cbn [rev]. rewrite join_segments_snoc.
    rewrite (append_not_empty _ n) by done.
    rewrite (trailing_separator_app d (String "/" n)) by done.
    change (trailing_separator (String "/" n)) with (trailing_separator n).
    rewrite (trailing_separator_plain n Hsep).
    by rewrite string_append_nil_r, !string_append_assoc.
Qed.

Example path_join_samples :
  path_join "/" "cache" = "/cache"
  ∧ path_join "/srv/app" "cache" = "/srv/app/cache"
  ∧ path_join "/srv/app/" "cache" = "/srv/app/cache"
  ∧ path_join "/srv/app/cache" "../index.html" = "/srv/app/index.html"
  ∧ path_join "app" "../.." = ".."
  ∧ path_join "/cache" "upcoming.json" = "/cache/upcoming.json".
Proof. repeat split; vm_compute; reflexivity. Qed.

Lemma cache_path_plain env f :
  plain_name f = true → cache_path env f = dir_prefix (CACHE_DIR env) +:+ f.
Proof. apply path_join_plain. Qed.

Lemma cache_path_inj env f g :
  plain_name f = true → plain_name g = true →
  cache_path env f = cache_path env g → f = g.
Proof.
  intros Hf Hg. rewrite !cache_path_plain by done. apply append_inv_head.
Qed.

Lemma cache_path_ne env f g :
  plain_name f = true → plain_name g = true →
  f ≠ g → cache_path env f ≠ cache_path env g.
Proof. intros Hf Hg Hne H. by apply Hne, (cache_path_inj env). Qed.

(** The files after the three items, by cache path. *)
Lemma cache_items_lookup env ts sig w fs req :
  req ∈ REQUEST_TYPES →
  foldl (cache_item env ts sig w) fs REQUEST_TYPES !! cache_path env (filename req)
    = match item_result env (type req) (filename req) ts sig w with
      | Some bytes => Some bytes
      | None => fs !! cache_path env (filename req)
      end.
Proof.
  intros Hreq. unfold REQUEST_TYPES in *. cbn [foldl]. unfold cache_item.
  cbn [type filename].
  pose proof (cache_path_ne env "upcoming.json" "live.json" eq_refl eq_refl) as N1.
  pose proof (cache_path_ne env "upcoming.json" "completed.json" eq_refl eq_refl)
    as N2.
  pose proof (cache_path_ne env "live.json" "completed.json" eq_refl eq_refl) as N3.
  repeat (apply elem_of_cons in Hreq as [->|Hreq]); [| | |by apply elem_of_nil in Hreq];
    cbn [type filename];
    destruct (item_result env "up" _ ts sig w);
    destruct (item_result env "live" _ ts sig w);
    destruct (item_result env "completed" _ ts sig w);
    rewrite ?lookup_insert_eq, ?lookup_insert_ne, ?lookup_insert_eq by naive_solver;
    try done;
    rewrite lookup_insert_ne, ?lookup_insert_eq, ?lookup_insert_ne by naive_solver;
    by rewrite ?lookup_insert_eq.
Qed.

(** C4: a failure of one content type stays inside that item's handler.
    The handler always completes normally; after a cycle that acquired
    its token, the cache file of each type is decided by that type's own
    decode and write, whatever happens to the other two; and when [live]
    fails while [up] and [completed] decode and their writes are accepted,
    exactly those two files are written and the cycle runs to its end. *)
Theorem C4_item_failure_is_contained env w :
  (∀ ty fname ts sig w',
     completion (fetchAndCacheData env ty fname ts sig w') = Normal tt)
  ∧ (∀ ts sig req,
       completion (acquire_token env w) = Normal (ts, sig) →
       req ∈ REQUEST_TYPES →
       files (world (runUpdateCycle env w)) !! cache_path env (filename req)
         = match item_result env (type req) (filename req) ts sig w with
           | Some bytes => Some bytes
           | None => files w !! cache_path env (filename req)
           end)
  ∧ (∀ ts sig e text_up text_done,
       completion (acquire_token env w) = Normal (ts, sig) →
       completion (fetch_and_decode env "live" ts sig w) = Throw e →
       completion (fetch_and_decode env "up" ts sig w) = Normal text_up →
       completion (fetch_and_decode env "completed" ts sig w) = Normal text_done →
       disk env (cache_path env "upcoming.json") = None →
       disk env (cache_path env "completed.json") = None →
       files (world (runUpdateCycle env w))
         = <[cache_path env "completed.json" := Utf8.encode text_done]>
             (<[cache_path env "upcoming.json" := Utf8.encode text_up]> (files w))
       ∧ writes (events (runUpdateCycle env w))
           = [(cache_path env "upcoming.json", text_up);
              (cache_path env "completed.json", text_done)]
       ∧ last (events (runUpdateCycle env w))
           = Some (ConsoleLog "--- Update cycle finished ---")
       ∧ completion (runUpdateCycle env w) = Normal tt).
Proof.
  split; [intros; apply fetchAndCacheData_completes|]. split.
  - intros ts sig req Htoken Hreq.
    rewrite runUpdateCycle_files, Htoken. cbn [fst snd].
    by apply cache_items_lookup.
  - intros ts sig e text_up text_done Htoken Hlive Hup Hdone Dup Ddone.
    repeat split.
    + rewrite runUpdateCycle_files, Htoken. cbn [fst snd].
      unfold REQUEST_TYPES. cbn [foldl]. unfold cache_item, item_result.
      cbn [type filename]. by rewrite Hlive, Hup, Hdone, Dup, Ddone.
    + rewrite runUpdateCycle_writes, Htoken. cbn [fst snd].
      unfold REQUEST_TYPES. cbn [map concat]. unfold item_writes.
      cbn [type filename]. by rewrite Hlive, Hup, Hdone.
    + rewrite runUpdateCycle_run. cbv zeta. rewrite Htoken. cbn [events].
      apply events_last_snoc.
    + apply runUpdateCycle_completes.
Qed.

Lemma C4_witness :
  files (world (runUpdateCycle live_down_env (initial_world ∅)))
    = <[cache_path live_down_env "completed.json" := Utf8.encode [66%Z]]>
        (<[cache_path live_down_env "upcoming.json" := Utf8.encode [65%Z]]> ∅)
  ∧ writes (events (runUpdateCycle live_down_env (initial_world ∅)))
      = [(cache_path live_down_env "upcoming.json", [65%Z]);
         (cache_path live_down_env "completed.json", [66%Z])]
  ∧ last (events (runUpdateCycle live_down_env (initial_world ∅)))
      = Some (ConsoleLog "--- Update cycle finished ---")
  ∧ completion (runUpdateCycle live_down_env (initial_world ∅)) = Normal tt.
Proof.
  eapply (proj2 (proj2 (C4_item_failure_is_contained live_down_env (initial_world ∅)))
            (JString "123") (JString "abcdef"));
    vm_compute; reflexivity.
Defined.

(** *** Cycles one after the other *)

Lemma cache_items_union env ts sig w reqs :
  ∀ fs1 fs2 : gmap string (list Z),
    foldl (cache_item env ts sig w) (fs1 ∪ fs2) reqs
      = foldl (cache_item env ts sig w) fs1 reqs ∪ fs2.
Proof.
  induction reqs as [|req reqs IH]; intros fs1 fs2; [done|].
  cbn [foldl]. rewrite <- IH. f_equal. unfold cache_item.
  destruct (item_result _ _ _ _ _ _); [|done].
  by rewrite insert_union_l.
Qed.

Lemma cache_items_stateless env ts sig w w' reqs :
  ∀ fs, foldl (cache_item env ts sig w) fs reqs
        = foldl (cache_item env ts sig w') fs reqs.
Proof.
  induction reqs as [|req reqs IH]; intros fs; [done|].
  cbn [foldl]. by rewrite IH, (cache_item_stateless env ts sig w w').
Qed.

(** A cycle changes the files it writes and no other. *)
Lemma runUpdateCycle_frame env w :
  files (world (runUpdateCycle env w)) = written env ∪ files w.
Proof.
  unfold written. rewrite !runUpdateCycle_files.
  destruct (stateless_run (acquire_token env) (initial_world ∅) w
              (stateless_acquire_token env)) as (-> & _ & _).
  destruct (completion (acquire_token env w)) as [token|e].
  - cbn [initial_world files].
    rewrite <- (left_id_L ∅ (∪) (files w)) at 1.
    rewrite cache_items_union.
    by rewrite (cache_items_stateless env token.1 token.2 w (initial_world ∅)).
  - cbn [initial_world files]. by rewrite (left_id_L ∅ (∪)).
Qed.

Lemma run_cycles_snoc envs env w :
  run_cycles (envs ++ [env]) w = world (runUpdateCycle env (run_cycles envs w)).
Proof. unfold run_cycles. by rewrite fold_left_app. Qed.

(** After any number of cycles, a path holds what the most recent cycle
    that wrote it left there. *)
Lemma run_cycles_latest envs w path :
  files (run_cycles envs w) !! path
    = match latest_write envs path with
      | Some bytes => Some bytes
      | None => files w !! path
      end.
Proof.
  induction envs as [|env envs IH] using rev_ind; [done|].
  rewrite run_cycles_snoc, runUpdateCycle_frame.
  unfold latest_write. rewrite foldl_snoc. fold (latest_write envs path).
  rewrite lookup_union, IH.
  destruct (written env !! path) as [bytes|];
    by destruct (latest_write envs path), (files w !! path).
Qed.

(** The ways an item fails before its write: the fetch fails for good (a
    network error or a refused status at every attempt), the body is not
    usable JSON, the [data] field is missing or falsy, or it cannot be
    decoded. *)
Lemma item_failure_kinds env ty ts sig w :
  (∃ e, completion (fetchWithRetry env CONTENT_URL (content_options ty ts sig)
                      PROXY_URL w) = Throw e)
  ∨ (∃ r, completion (fetchWithRetry env CONTENT_URL (content_options ty ts sig)
                        PROXY_URL w) = Normal r
          ∧ match body_json r with
            | BodyValue props =>
                truthy (default JUndefined (props !! "data")) = false
                ∨ buffer_of (default JUndefined (props !! "data")) = None
            | _ => True
            end) →
  ∃ e, completion (fetch_and_decode env ty ts sig w) = Throw e.
Proof.
  intros [[e He]|(r & Hr & Hbody)].
  - exists e. unfold fetch_and_decode. by rewrite completion_bind, He.
  - destruct (body_json r) as [e| |props] eqn:Hb.
    + exists e. unfold fetch_and_decode, response_json.
      by rewrite completion_bind, Hr, Hb.
    + eexists. unfold fetch_and_decode, response_json.
      rewrite completion_bind, Hr, Hb. reflexivity.
    + erewrite fetch_and_decode_data by done. cbv zeta.
      destruct Hbody as [-> | ->]; [by eexists|].
      destruct (truthy _); by eexists.
Qed.

(** C5: for every content type, an item that fails before its write
    issues no write and leaves the state as it was, so the cache file
    still holds what the most recent successful decode for its type left
    there; over any run of cycles, each path holds the bytes of the most
    recent cycle that wrote it, or its initial content. *)
Theorem C5_failed_item_leaves_cache_untouched :
  (∀ env ty fname ts sig w e,
     completion (fetch_and_decode env ty ts sig w) = Throw e →
     writes (events (fetchAndCacheData env ty fname ts sig w)) = []
     ∧ world (fetchAndCacheData env ty fname ts sig w) = w
     ∧ completion (fetchAndCacheData env ty fname ts sig w) = Normal tt)
  ∧ (∀ env ts sig req w,
       completion (acquire_token env w) = Normal (ts, sig) →
       req ∈ REQUEST_TYPES →
       item_result env (type req) (filename req) ts sig w = None →
       files (world (runUpdateCycle env w)) !! cache_path env (filename req)
         = files w !! cache_path env (filename req))
  ∧ (∀ envs w path,
       files (run_cycles envs w) !! path
         = match latest_write envs path with
           | Some bytes => Some bytes
           | None => files w !! path
           end).
Proof.
  split; [|split].
  - intros env ty fname ts sig w e Hfail. repeat split.
    + rewrite fetchAndCacheData_writes. unfold item_writes. cbn [type].
      by rewrite Hfail.
    + rewrite fetchAndCacheData_world. unfold item_result. rewrite Hfail.
      by destruct w.
    + apply fetchAndCacheData_completes.
  - intros env ts sig req w Htoken Hreq Hnone.
    rewrite runUpdateCycle_files, Htoken. cbn [fst snd].
    by rewrite cache_items_lookup, Hnone.
  - apply run_cycles_latest.
Qed.

Lemma C5_witness :
  writes (events (fetchAndCacheData live_down_env "live" "live.json"
                    (JString "123") (JString "abcdef") (initial_world ∅))) = []
  ∧ world (fetchAndCacheData live_down_env "live" "live.json"
             (JString "123") (JString "abcdef") (initial_world ∅))
      = initial_world ∅
  ∧ completion (fetchAndCacheData live_down_env "live" "live.json"
                  (JString "123") (JString "abcdef") (initial_world ∅))
      = Normal tt.
Proof.
  eapply (proj1 C5_failed_item_leaves_cache_untouched live_down_env "live").
  vm_compute. reflexivity.
Defined.

(** ** The decode step *)

Lemma base64_encode_nonempty b bs : ∃ c s, Base64.encode (b :: bs) = String c s.
Proof. destruct bs as [|b1 [|b2 bs]]; cbn [Base64.encode]; eauto. Qed.

Lemma utf8_encode_cp_nonempty cp : ∃ b bs, Utf8.encode_cp cp = b :: bs.
Proof.
  unfold Utf8.encode_cp.
  destruct (cp <? 128)%Z; [eauto|].
  destruct (cp <? 2048)%Z; [eauto|].
  destruct (cp <? 65536)%Z; eauto.
Qed.

Lemma base64_of_text_nonempty cp text :
  ∃ c s, base64_of_text (cp :: text) = String c s.
Proof.
  unfold base64_of_text, Utf8.encode. cbn [flat_map].
  destruct (utf8_encode_cp_nonempty cp) as (b & bs & ->).
  apply base64_encode_nonempty.
Qed.

(** The decode step on the base64 of a text. *)
Lemma decode_base64_of_text text :
  Forall Utf8.scalar text →
  buffer_of (JString (base64_of_text text)) = Some (Utf8.encode text)
  ∧ Buffer_toString (Utf8.encode text) = text.
Proof.
  intros Htext. unfold buffer_of, base64_of_text, Buffer_toString. split.
  - f_equal. apply Base64Facts.base64_decode_encode.
    by apply Utf8Facts.encode_bytes.
  - by apply Utf8Facts.utf8_decode_encode.
Qed.

(** Whatever [Buffer.from] accepts, the decoded content is a text. *)
Lemma decoded_content_scalar v bytes :
  buffer_of v = Some bytes → Forall Utf8.scalar (Buffer_toString bytes).
Proof.
  intros Hv. apply Utf8Facts.decode_scalar.
  destruct v as [| | | |s|[elems|]]; try done; injection Hv as <-.
  - apply Base64Facts.decode_bytes.
  - apply Forall_map, Forall_forall. intros x _. unfold Base64.is_byte.
    apply Z.mod_pos_bound. lia.
Qed.

(** An item whose response carries the base64 of a non-empty text
    decodes to that text. *)
Lemma fetch_and_decode_text env ty ts sig w r props cp text :
  completion (fetchWithRetry env CONTENT_URL (content_options ty ts sig)
                PROXY_URL w) = Normal r →
  body_json r = BodyValue props →
  props !! "data" = Some (JString (base64_of_text (cp :: text))) →
  Forall Utf8.scalar (cp :: text) →
  completion (fetch_and_decode env ty ts sig w) = Normal (cp :: text).
Proof.
  intros Hr Hb Hdata Htext.
  erewrite fetch_and_decode_data by done. cbv zeta. rewrite Hdata.
  cbn [default from_option id].
  destruct (decode_base64_of_text _ Htext) as [-> ->].
  by destruct (base64_of_text_nonempty cp text) as (c & s & ->).
Qed.

(** C8: base64 round trip. For every text (a sequence of Unicode scalar
    values), the decode step applied to the base64 of the text gives back
    exactly that text; a cycle whose token response is
    [{timestamp: "123", signature: "abcdef"}] and whose content response
    for [up] carries the base64 of a non-empty text leaves the UTF-8
    bytes of that text in [upcoming.json]; in particular [{data: "QQ=="}]
    leaves exactly [A] there. *)
Theorem C8_base64_round_trip :
  (∀ env text w,
     Forall Utf8.scalar text →
     ∃ buffer,
       Buffer_from env (JString (base64_of_text text)) w
         = mkRun (Normal buffer) w []
       ∧ Buffer_toString buffer = text)
  ∧ (∀ env w token_response token_props r props data,
       completion (fetchWithRetry env TOKEN_URL token_options PROXY_URL w)
         = Normal token_response →
       body_json token_response = BodyValue token_props →
       token_props !! "timestamp" = Some (JString "123") →
       token_props !! "signature" = Some (JString "abcdef") →
       completion (fetchWithRetry env CONTENT_URL
                     (content_options "up" (JString "123") (JString "abcdef"))
                     PROXY_URL w) = Normal r →
       body_json r = BodyValue props →
       props !! "data" = Some (JString data) →
       disk env (cache_path env "upcoming.json") = None →
       (∀ cp text,
          Forall Utf8.scalar (cp :: text) →
          data = base64_of_text (cp :: text) →
          files (world (runUpdateCycle env w)) !! cache_path env "upcoming.json"
            = Some (Utf8.encode (cp :: text)))
       ∧ (data = "QQ==" →
          files (world (runUpdateCycle env w)) !! cache_path env "upcoming.json"
            = Some (bytes_of_string "A"))).
Proof.
  split.
  - intros env text w Htext. exists (Utf8.encode text).
    destruct (decode_base64_of_text text Htext) as [Hbuf Hstr].
    unfold Buffer_from. by rewrite Hbuf.
  - intros env w token_response token_props r props data
      Htoken Htbody Hts Hsig Hr Hbody Hdata Hdisk.
    assert (Hacq : completion (acquire_token env w)
                   = Normal (JString "123", JString "abcdef"))
      by (by eapply acquire_token_present).
    assert (Hgen : ∀ cp text,
              Forall Utf8.scalar (cp :: text) →
              data = base64_of_text (cp :: text) →
              files (world (runUpdateCycle env w)) !! cache_path env "upcoming.json"
                = Some (Utf8.encode (cp :: text))).
    { intros cp text Htext ->.
      rewrite runUpdateCycle_files, Hacq. cbn [fst snd].
      rewrite (cache_items_lookup env _ _ w (files w)
                 (mkRequestType "up" "upcoming.json" "Upcoming"))
        by (unfold REQUEST_TYPES; apply elem_of_cons; by left).
      cbn [type filename]. unfold item_result.
      erewrite fetch_and_decode_text by done. by rewrite Hdisk. }
    split; [exact Hgen|].
    intros ->. apply (Hgen 65%Z []); [|reflexivity].
    repeat constructor. unfold Utf8.scalar. lia.
Qed.

Lemma sample_text_scalar : Forall Utf8.scalar [0x20AC; 0x1F600; 65]%Z.
Proof. repeat constructor; unfold Utf8.scalar; lia. Defined.

Lemma C8_witness :
  (∃ buffer,
     Buffer_from live_down_env (JString (base64_of_text [0x20AC; 0x1F600; 65]%Z))
       (initial_world ∅)
       = mkRun (Normal buffer) (initial_world ∅) []
     ∧ Buffer_toString buffer = [0x20AC; 0x1F600; 65]%Z)
  ∧ files (world (runUpdateCycle live_down_env (initial_world ∅)))
      !! cache_path live_down_env "upcoming.json"
    = Some (bytes_of_string "A").
Proof.
  split.
  - apply (proj1 C8_base64_round_trip), sample_text_scalar.
  - eapply (proj2 C8_base64_round_trip live_down_env (initial_world ∅));
      [vm_compute; reflexivity|reflexivity|reflexivity|reflexivity
      |vm_compute; reflexivity|reflexivity|reflexivity|reflexivity|reflexivity].
Defined.

(** C10, as stated, fails on the code: a [data] field that is truthy but
    not a string, here the number 5, makes [Buffer.from] throw; the item
    takes its [catch] branch, logs the message of that TypeError and
    never reaches the write. *)
Lemma C10_truthy_number_is_not_written :
  network numeric_data_env CONTENT_URL
    (content_options "up" (JString "123") (JString "abcdef")) 0
    = json_ok [("data", JNumber (5 # 1))]
  ∧ truthy (JNumber (5 # 1)) = true
  ∧ writes (events (fetchAndCacheData numeric_data_env "up" "upcoming.json"
                      (JString "123") (JString "abcdef") (initial_world ∅))) = []
  ∧ error_lines (events (fetchAndCacheData numeric_data_env "up" "upcoming.json"
                           (JString "123") (JString "abcdef") (initial_world ∅)))
      = ["[ERROR] Failed to fetch or decode up data: "
           +:+ message (invalid_arg_type numeric_data_env (JNumber (5 # 1)))]
  ∧ files (world (fetchAndCacheData numeric_data_env "up" "upcoming.json"
                    (JString "123") (JString "abcdef") (initial_world ∅))) = ∅.
Proof. repeat split; vm_compute; reflexivity. Qed.

(** C10, amended: the decode step never throws on a string. For every
    content response whose [data] field is truthy, the item reaches the
    file write exactly when [Buffer.from] accepts the value, which it
    does for every non-empty string, valid base64 or not (and for an
    array-like); a truthy value it rejects (a number, [true], a plain
    object) takes the decode-error branch, where the item's error line
    carries the message of the TypeError [Buffer.from] threw for that
    value, and no write is issued. *)
Theorem C10_string_data_reaches_write :
  (∀ env s w,
     Buffer_from env (JString s) w = mkRun (Normal (Base64.decode s)) w [])
  ∧ (∀ env ty fname ts sig w r props data,
       completion (fetchWithRetry env CONTENT_URL (content_options ty ts sig)
                     PROXY_URL w) = Normal r →
       body_json r = BodyValue props →
       props !! "data" = Some data →
       truthy data = true →
       match buffer_of data with
       | Some bytes =>
           writes (events (fetchAndCacheData env ty fname ts sig w))
             = [(cache_path env fname, Buffer_toString bytes)]
       | None =>
           writes (events (fetchAndCacheData env ty fname ts sig w)) = []
           ∧ last (events (fetchAndCacheData env ty fname ts sig w))
               = Some (ConsoleError
                         ("[ERROR] Failed to fetch or decode " +:+ ty +:+ " data: "
                            +:+ message (invalid_arg_type env data)))
       end)
  ∧ (∀ c s, truthy (JString (String c s)) = true
            ∧ buffer_of (JString (String c s)) = Some (Base64.decode (String c s)))
  ∧ (∀ x, buffer_of (JNumber x) = None)
  ∧ (∀ b, buffer_of (JBool b) = None)
  ∧ buffer_of (JObject None) = None.
Proof.
  split; [done|]. split; [|done].
  intros env ty fname ts sig w r props data Hr Hbody Hdata Htruthy.
  assert (Hdec : completion (fetch_and_decode env ty ts sig w)
                 = match buffer_of data with
                   | Some bytes => Normal (Buffer_toString bytes)
                   | None => Throw (invalid_arg_type env data)
                   end).
  { erewrite fetch_and_decode_data by done. cbv zeta. rewrite Hdata.
    cbn [default from_option id]. by rewrite Htruthy. }
  rewrite fetchAndCacheData_writes. unfold item_writes. cbn [type filename].
  rewrite fetchAndCacheData_run. cbv zeta. rewrite Hdec.
  destruct (buffer_of data) as [bytes|]; [done|].
  split; [done|]. cbn [events]. apply last_snoc.
Qed.

Lemma C10_witness :
  writes (events (fetchAndCacheData live_down_env "up" "upcoming.json"
                    (JString "123") (JString "abcdef") (initial_world ∅)))
    = [(cache_path live_down_env "upcoming.json",
        Buffer_toString (Base64.decode "QQ=="))].
Proof.
  refine (proj1 (proj2 C10_string_data_reaches_write) live_down_env "up"
            "upcoming.json" (JString "123") (JString "abcdef") (initial_world ∅)
            _ _ (JString "QQ==") _ _ _ _).
  - vm_compute. reflexivity.
  - reflexivity.
  - vm_compute. reflexivity.
  - reflexivity.
Defined.

(** * Further properties

    ** The retrying fetch *)

Lemma error_lines_app evs1 evs2 :
  error_lines (evs1 ++ evs2) = error_lines evs1 ++ error_lines evs2.
Proof. apply omap_app. Qed.

Lemma wait_events_fetched N i : fetched (wait_events N i) = [].
Proof. unfold wait_events. by destruct (0 <? i)%nat. Qed.

Lemma wait_events_error_lines N i : error_lines (wait_events N i) = [].
Proof. unfold wait_events. by destruct (0 <? i)%nat. Qed.

(** Requests and error lines of the loop, by its result. *)
Lemma retry_loop_counts N env url options fuel :
  ∀ i lastError w,
    length (fetched (events (retry_loop N env url options fuel i lastError w)))
      ≤ fuel
    ∧ (∀ r,
         completion (retry_loop N env url options fuel i lastError w) = Normal r →
         length (error_lines
                   (events (retry_loop N env url options fuel i lastError w))) + 1
           = length (fetched
                       (events (retry_loop N env url options fuel i lastError w))))
    ∧ (∀ e,
         completion (retry_loop N env url options fuel i lastError w) = Throw e →
         length (fetched
                   (events (retry_loop N env url options fuel i lastError w)))
           = fuel
         ∧ length (error_lines
                     (events (retry_loop N env url options fuel i lastError w)))
             = fuel).
Proof.
  induction fuel as [|fuel IH]; intros i lastError w.
  - destruct lastError; cbn; repeat split; (lia || done).
  - destruct (classify (network env url options i)) as [r|e] eqn:Hc.
    + erewrite retry_loop_success by done. cbn [completion events].
      rewrite fetched_app, error_lines_app, wait_events_fetched,
        wait_events_error_lines.
      cbn. repeat split; (lia || done).
    + erewrite retry_loop_failure by done. cbn [completion events].
      rewrite fetched_app, error_lines_app, wait_events_fetched,
        wait_events_error_lines.
      change (fetched (?a :: ?b :: ?l)) with ((url, options) :: fetched l).
      change (error_lines (?a :: ConsoleError ?x :: ?l))
        with (x :: error_lines l).
      cbn [app length].
      destruct (IH (S i) (Some e) w) as (Hle & Hok & Hfail).
      split; [lia|]. split.
      * intros r Hr. specialize (Hok r Hr). lia.
      * intros e' He'. destruct (Hfail e' He'). lia.
Qed.

(** X1. A call sends at most as many requests as attempts are configured.
    When it returns a response, every request but the last was answered
    by a logged failure; when it throws, it has used every attempt and
    logged each failure. *)
Theorem fetchWithRetry_request_budget N env url options proxy w :
  length (fetched (events (fetchWithRetry_max N env url options proxy w))) ≤ N
  ∧ (∀ r,
       completion (fetchWithRetry_max N env url options proxy w) = Normal r →
       length (error_lines (events (fetchWithRetry_max N env url options proxy w)))
         + 1
       = length (fetched (events (fetchWithRetry_max N env url options proxy w))))
  ∧ (∀ e,
       completion (fetchWithRetry_max N env url options proxy w) = Throw e →
       length (fetched (events (fetchWithRetry_max N env url options proxy w))) = N
       ∧ length (error_lines
                   (events (fetchWithRetry_max N env url options proxy w))) = N).
Proof. apply retry_loop_counts. Qed.

Lemma fetchWithRetry_request_budget_witness :
  length (error_lines (events (fetchWithRetry_max 5 slow_start_env TOKEN_URL
                                 token_options PROXY_URL (initial_world ∅))))
    + 1
  = length (fetched (events (fetchWithRetry_max 5 slow_start_env TOKEN_URL
                               token_options PROXY_URL (initial_world ∅)))).
Proof.
  eapply (proj1 (proj2 (fetchWithRetry_request_budget 5 slow_start_env TOKEN_URL
                          token_options PROXY_URL (initial_world ∅)))).
  vm_compute. reflexivity.
Defined.

(** From an iteration [i0 ≥ 1] on: one wait per request. *)
Lemma retry_loop_timeouts N env url options fuel :
  ∀ i0 lastError w,
    1 ≤ i0 →
    timeouts (events (retry_loop N env url options fuel i0 lastError w))
      = map backoff_delay
          (seq i0 (length (fetched
                     (events (retry_loop N env url options fuel i0 lastError w))))).
Proof.
  induction fuel as [|fuel IH]; intros i0 lastError w Hi0.
  - by destruct lastError.
  - destruct (classify (network env url options i0)) as [r|e] eqn:Hc.
    + erewrite retry_loop_success by done. cbn [events].
      by rewrite wait_events_pos by lia.
    + erewrite retry_loop_failure by done. cbn [events].
      rewrite wait_events_pos by lia. rewrite timeouts_app, fetched_app.
      change (timeouts [?a; SetTimeout ?d]) with [d].
      change (fetched [ConsoleLog ?a; SetTimeout ?d]) with (@nil (string * Options)).
      change (timeouts (Fetch ?u ?o :: ?c :: ?l)) with (timeouts l).
      change (fetched (Fetch ?u ?o :: ?c :: ?l)) with ((u, o) :: fetched l).
      cbn [app length seq map]. f_equal. apply IH. lia.
Qed.

(** The waits of a whole call: none before the first request, then
    [2^1, 2^2, ...] seconds, one before each further request. *)
Lemma fetchWithRetry_max_timeouts N env url options proxy w :
  timeouts (events (fetchWithRetry_max N env url options proxy w))
    = map backoff_delay
        (seq 1 (length (fetched
                  (events (fetchWithRetry_max N env url options proxy w))) - 1)).
Proof.
  unfold fetchWithRetry_max. destruct N as [|n]; [done|].
  destruct (classify (network env url options 0)) as [r|e] eqn:Hc.
  - by erewrite retry_loop_success by done.
  - erewrite retry_loop_failure by done. cbn [events wait_events Nat.ltb Nat.leb app].
    change (timeouts (?a :: ?b :: ?l)) with (timeouts l).
    change (fetched (Fetch ?u ?o :: ?b :: ?l)) with ((u, o) :: fetched l).
    cbn [length]. rewrite Nat.sub_succ, Nat.sub_0_r.
    apply retry_loop_timeouts. lia.
Qed.

Lemma backoff_sum k :
  foldr Z.add 0%Z (map backoff_delay (seq 1 k))
    = ((2 ^ Z.of_nat (S k) - 2) * 1000)%Z.
Proof.
  induction k as [|k IH]; [done|].
  rewrite seq_S, map_app, foldr_app. cbn [map foldr].
  assert (Hshift : ∀ (l : list Z) (a : Z),
             foldr Z.add a l = (foldr Z.add 0 l + a)%Z).
  { induction l as [|x l IHl]; intros a; cbn; [lia|]. rewrite IHl. lia. }
  rewrite Hshift, IH. unfold backoff_delay.
  replace (Z.of_nat (S (S k))) with (Z.of_nat (S k) + 1)%Z by lia.
  replace (1 + k) with (S k) by lia.
  rewrite Z.pow_add_r by lia. lia.
Qed.

(** X2. The waits of a call are [2^1, 2^2, ...] seconds, one before each
    request after the first, whatever the outcomes; so a call with the
    script's five attempts never waits more than 30 seconds in all. *)
Theorem fetchWithRetry_total_wait env url options proxy w :
  timeouts (events (fetchWithRetry env url options proxy w))
    = map (λ j, 2 ^ Z.of_nat j * 1000)%Z
        (seq 1 (length (fetched (events (fetchWithRetry env url options proxy w)))
                - 1))
  ∧ (0 ≤ total_wait (events (fetchWithRetry env url options proxy w)) ≤ 30000)%Z.
Proof.
  split; [apply fetchWithRetry_max_timeouts|].
  unfold total_wait, fetchWithRetry.
  rewrite fetchWithRetry_max_timeouts, backoff_sum.
  destruct (retry_loop_counts MAX_RETRIES env url options MAX_RETRIES 0 None w)
    as (Hle & _).
  fold (fetchWithRetry_max MAX_RETRIES env url options proxy w) in Hle.
  unfold MAX_RETRIES in *.
  set (n := length _) in *. clearbody n.
  do 6 (destruct n as [|n]; [cbn; lia|]). lia.
Qed.

(** X3. When the first attempt succeeds, the call returns its response at
    once: one request, no timer, no log line. *)
Theorem fetchWithRetry_first_attempt env url options proxy w r :
  classify (network env url options 0) = Normal r →
  fetchWithRetry env url options proxy w = mkRun (Normal r) w [Fetch url options].
Proof.
  intros Hok. unfold fetchWithRetry, fetchWithRetry_max, MAX_RETRIES.
  by erewrite retry_loop_success by done.
Qed.

Lemma fetchWithRetry_first_attempt_witness :
  ∃ r,
    fetchWithRetry live_down_env TOKEN_URL token_options PROXY_URL (initial_world ∅)
      = mkRun (Normal r) (initial_world ∅) [Fetch TOKEN_URL token_options].
Proof.
  eexists.
  apply (fetchWithRetry_first_attempt live_down_env TOKEN_URL token_options
           PROXY_URL (initial_world ∅)).
  reflexivity.
Defined.

(** X4. A call leaves the cache files and [lastUpdateTime] as they are,
    writes no file, sends the request it was given and no other, at
    every attempt alike, and takes no notice of the proxy URL. *)
Theorem fetchWithRetry_touches_nothing N env url options proxy w :
  world (fetchWithRetry_max N env url options proxy w) = w
  ∧ writes (events (fetchWithRetry_max N env url options proxy w)) = []
  ∧ (∀ u o,
       (u, o) ∈ fetched (events (fetchWithRetry_max N env url options proxy w)) →
       u = url ∧ o = options)
  ∧ (∀ proxy',
       fetchWithRetry_max N env url options proxy' w
         = fetchWithRetry_max N env url options proxy w).
Proof.
  pose proof (retry_loop_quiet N env url options N 0 None w) as Hq.
  split.
  { by destruct (stateless_run _ w w
                   (stateless_retry_loop N env url options N 0 None))
      as (_ & ? & _). }
  split; [by eapply quiet_writes|].
  split; [|done].
  intros u o Hin. by eapply quiet_fetched.
Qed.

(** ** One item *)

Lemma fetchAndCacheData_fetched env ty fname ts sig w :
  fetched (events (fetchAndCacheData env ty fname ts sig w))
    = fetched (events (fetchWithRetry env CONTENT_URL (content_options ty ts sig)
                         PROXY_URL w)).
Proof.
  rewrite fetchAndCacheData_run. cbv zeta.
  destruct (completion (fetch_and_decode env ty ts sig w));
    [destruct (disk env (cache_path env fname))|];
    cbn [events]; rewrite fetched_app, fetch_and_decode_events;
    apply app_nil_r.
Qed.

Lemma fetchAndCacheData_timeouts env ty fname ts sig w :
  timeouts (events (fetchAndCacheData env ty fname ts sig w))
    = timeouts (events (fetchWithRetry env CONTENT_URL (content_options ty ts sig)
                          PROXY_URL w)).
Proof.
  rewrite fetchAndCacheData_run. cbv zeta.
  destruct (completion (fetch_and_decode env ty ts sig w));
    [destruct (disk env (cache_path env fname))|];
    cbn [events]; rewrite timeouts_app, fetch_and_decode_events;
    apply app_nil_r.
Qed.

(** What the decode returns is a text. *)
Lemma fetch_and_decode_scalar env ty ts sig w text :
  completion (fetch_and_decode env ty ts sig w) = Normal text →
  Forall Utf8.scalar text.
Proof.
  unfold fetch_and_decode. rewrite completion_bind.
  destruct (completion (fetchWithRetry _ _ _ _ _)) as [r|e]; [|done].
  rewrite completion_bind. unfold response_json.
  destruct (body_json r) as [e| |props]; cbn; try done.
  destruct (truthy _); cbn; [|done].
  unfold Buffer_from, bind.
  destruct (buffer_of _) as [bytes|] eqn:Hb; cbn; [|done].
  intros [= <-]. by eapply decoded_content_scalar.
Qed.



(** X6. An item changes no file but its own and never [lastUpdateTime];
    when its decode succeeds and the write is accepted, its file holds the
    UTF-8 bytes of the decoded content, whatever it held before. *)
Theorem fetchAndCacheData_own_file_only env ty fname ts sig w :
  (∀ path,
     path ≠ cache_path env fname →
     files (world (fetchAndCacheData env ty fname ts sig w)) !! path
       = files w !! path)
  ∧ lastUpdateTime (world (fetchAndCacheData env ty fname ts sig w))
      = lastUpdateTime w
  ∧ (∀ text,
       completion (fetch_and_decode env ty ts sig w) = Normal text →
       disk env (cache_path env fname) = None →
       files (world (fetchAndCacheData env ty fname ts sig w))
         !! cache_path env fname
       = Some (Utf8.encode text)).
Proof.
  rewrite fetchAndCacheData_world. cbn [files lastUpdateTime].
  split; [|split; [done|]].
  - intros path Hne. destruct (item_result _ _ _ _ _ _); [|done].
    by rewrite lookup_insert_ne.
  - intros text Hdec Hdisk. unfold item_result. rewrite Hdec, Hdisk.
    apply lookup_insert_eq.
Qed.

(** X7. Whatever the content endpoint sends, the bytes an item leaves in
    its cache file are well-formed UTF-8: decoding them and encoding the
    result gives the same bytes. *)
Theorem cached_bytes_are_utf8 env ty fname ts sig w bytes :
  item_result env ty fname ts sig w = Some bytes →
  Forall Base64.is_byte bytes ∧ Utf8.encode (Utf8.decode bytes) = bytes.
Proof.
  unfold item_result.
  destruct (completion (fetch_and_decode env ty ts sig w)) as [text|e] eqn:Hdec;
    [|done].
  destruct (disk env (cache_path env fname)); [done|].
  intros [= <-]. apply fetch_and_decode_scalar in Hdec.
  split; [by apply Utf8Facts.encode_bytes|].
  by rewrite Utf8Facts.utf8_decode_encode.
Qed.

Lemma cached_bytes_are_utf8_witness :
  item_result latin1_data_env "up" "upcoming.json" (JString "123")
    (JString "abcdef") (initial_world ∅) = Some [0xEF; 0xBF; 0xBD]%Z
  ∧ Forall Base64.is_byte [0xEF; 0xBF; 0xBD]%Z
  ∧ Utf8.encode (Utf8.decode [0xEF; 0xBF; 0xBD]%Z) = [0xEF; 0xBF; 0xBD]%Z.
Proof.
  assert (H : item_result latin1_data_env "up" "upcoming.json" (JString "123")
                (JString "abcdef") (initial_world ∅)
              = Some [0xEF; 0xBF; 0xBD]%Z) by (vm_compute; reflexivity).
  split; [exact H|].
  exact (cached_bytes_are_utf8 latin1_data_env "up" "upcoming.json"
           (JString "123") (JString "abcdef") (initial_world ∅) _ H).
Defined.

(** X8. A [data] field that is absent or falsy (the empty string of an
    empty payload included) is reported as missing: the item issues no
    write, leaves the state as it was and logs the missing-field error. *)
Theorem fetchAndCacheData_falsy_data env ty fname ts sig w r props :
  completion (fetchWithRetry env CONTENT_URL (content_options ty ts sig)
                PROXY_URL w) = Normal r →
  body_json r = BodyValue props →
  truthy (default JUndefined (props !! "data")) = false →
  writes (events (fetchAndCacheData env ty fname ts sig w)) = []
  ∧ world (fetchAndCacheData env ty fname ts sig w) = w
  ∧ last (events (fetchAndCacheData env ty fname ts sig w))
      = Some (ConsoleError
                ("[ERROR] Failed to fetch or decode " +:+ ty +:+ " data: "
                   +:+ "Data field missing in response for type: " +:+ ty)).
Proof.
  intros Hr Hb Hfalsy.
  assert (Hdec : completion (fetch_and_decode env ty ts sig w)
                 = Throw (mkError ("Data field missing in response for type: "
                                     +:+ ty))).
  { erewrite fetch_and_decode_data by done. cbv zeta. by rewrite Hfalsy. }
  split.
  { rewrite fetchAndCacheData_writes. unfold item_writes. cbn [type].
    by rewrite Hdec. }
  split.
  { rewrite fetchAndCacheData_world. unfold item_result. rewrite Hdec.
    by destruct w. }
  rewrite fetchAndCacheData_run. cbv zeta. rewrite Hdec. cbn [events message].
  apply last_snoc.
Qed.

Lemma fetchAndCacheData_falsy_data_witness :
  writes (events (fetchAndCacheData empty_data_env "live" "live.json"
                    (JString "123") (JString "abcdef") (initial_world ∅))) = []
  ∧ world (fetchAndCacheData empty_data_env "live" "live.json"
             (JString "123") (JString "abcdef") (initial_world ∅))
      = initial_world ∅
  ∧ last (events (fetchAndCacheData empty_data_env "live" "live.json"
                    (JString "123") (JString "abcdef") (initial_world ∅)))
      = Some (ConsoleError
                ("[ERROR] Failed to fetch or decode " +:+ "live" +:+ " data: "
                   +:+ "Data field missing in response for type: " +:+ "live")).
Proof.
  eapply (fetchAndCacheData_falsy_data empty_data_env "live" "live.json"
            (JString "123") (JString "abcdef") (initial_world ∅));
    [vm_compute; reflexivity|reflexivity|vm_compute; reflexivity].
Defined.

(** X9. An item sends its own POST request (the content URL, the type as
    JSON body, the token in the two headers) and no other, at least once
    and at most five times, and issues at most one write, to its own cache
    path. *)
Theorem fetchAndCacheData_requests env ty fname ts sig w :
  (∀ u o,
     (u, o) ∈ fetched (events (fetchAndCacheData env ty fname ts sig w)) →
     u = CONTENT_URL
     ∧ o = mkOptions (Some "POST")
             (HEADERS ++ [("x-timestamp", ts); ("x-signature", sig)])
             (Some (JSON_stringify_type ty)))
  ∧ 1 ≤ length (fetched (events (fetchAndCacheData env ty fname ts sig w))) ≤ 5
  ∧ length (writes (events (fetchAndCacheData env ty fname ts sig w))) ≤ 1
  ∧ (∀ path text,
       (path, text) ∈ writes (events (fetchAndCacheData env ty fname ts sig w)) →
       path = cache_path env fname).
Proof.
  rewrite fetchAndCacheData_fetched, fetchAndCacheData_writes.
  split.
  { intros u o Hin.
    by apply (quiet_fetched _ _ _ _ _
                (retry_loop_quiet MAX_RETRIES env CONTENT_URL
                   (content_options ty ts sig) MAX_RETRIES 0 None w)) in Hin. }
  split.
  { destruct (retry_loop_counts MAX_RETRIES env CONTENT_URL
                (content_options ty ts sig) MAX_RETRIES 0 None w)
      as (Hle & Hok & Hfail).
    fold (fetchWithRetry_max MAX_RETRIES env CONTENT_URL
            (content_options ty ts sig) PROXY_URL w) in *.
    fold (fetchWithRetry env CONTENT_URL (content_options ty ts sig) PROXY_URL w)
      in *.
    split; [|exact Hle].
    destruct (completion (fetchWithRetry env CONTENT_URL
                            (content_options ty ts sig) PROXY_URL w))
      as [r|e] eqn:Hc.
    - specialize (Hok r eq_refl). lia.
    - destruct (Hfail e eq_refl) as [-> _]. unfold MAX_RETRIES. lia. }
  unfold item_writes. cbn [type filename].
  destruct (completion (fetch_and_decode env ty ts sig w)); split;
    cbn; try lia.
  - intros path text [[= -> _]|[]%elem_of_nil]%elem_of_cons. done.
  - by intros path text ?%elem_of_nil.
Qed.

(** ** One cycle *)

Lemma acquire_token_fetched env w :
  fetched (events (acquire_token env w))
    = fetched (events (fetchWithRetry env TOKEN_URL token_options PROXY_URL w)).
Proof.
  unfold acquire_token. rewrite events_bind, fetched_app.
  destruct (completion (fetchWithRetry _ _ _ _ _)) as [r|e]; [|apply app_nil_r].
  unfold response_json.
  destruct (body_json r) as [e| |props]; cbn; try apply app_nil_r.
  destruct (_ || _); cbn; [apply app_nil_r|].
  unfold template, template_error.
  destruct (default JUndefined (props !! "timestamp"));
    try destruct (not_convertible env _);
    destruct (default JUndefined (props !! "signature")); cbn; apply app_nil_r.
Qed.

(** The requests of the items of a cycle. *)
Lemma Promise_all_items_fetched env ts sig reqs :
  ∀ w,
    (∀ u o,
       (u, o) ∈ fetched (events (Promise_all
                  (map (λ req, fetchAndCacheData env (type req) (filename req)
                                 ts sig) reqs) w)) →
       u = CONTENT_URL
       ∧ ∃ req, req ∈ reqs ∧ o = content_options (type req) ts sig)
    ∧ length (fetched (events (Promise_all
                (map (λ req, fetchAndCacheData env (type req) (filename req)
                               ts sig) reqs) w)))
        ≤ 5 * length reqs.
Proof.
  induction reqs as [|req reqs IH]; intros w.
  { split; [by intros u o ?%elem_of_nil|done]. }
  cbn [map Promise_all]. cbv zeta. cbn [events]. rewrite fetched_app.
  destruct (fetchAndCacheData_requests env (type req) (filename req) ts sig w)
    as (Hreq & [_ Hlen] & _).
  destruct (IH (world (fetchAndCacheData env (type req) (filename req) ts sig w)))
    as (IHreq & IHlen).
  split.
  - intros u o [Hin|Hin]%elem_of_app.
    + destruct (Hreq u o Hin) as [-> ->]. split; [done|].
      exists req. split; [by left|done].
    + destruct (IHreq u o Hin) as (-> & req' & Hin' & ->). split; [done|].
      exists req'. split; [by right|done].
  - rewrite length_app. cbn [length]. lia.
Qed.

(** X10. A cycle never lets an error out, whatever the network, the
    responses and the file system do: the promise the interval timer
    drops is never rejected. *)
Theorem runUpdateCycle_never_throws env w :
  completion (runUpdateCycle env w) = Normal tt
  ∧ (∀ envs, completion (runUpdateCycle env (run_cycles envs w)) = Normal tt).
Proof. split; [|intros envs]; apply runUpdateCycle_completes. Qed.

(** X11. A token whose [signature] is truthy but not a string passes the
    check of the two fields and then fails in the log line that reads
    them: at the conversion of [timestamp] to a string, when that is an
    object that cannot be converted, and otherwise at
    [signature.substring]. Either way the cycle ends as on any token
    failure, with no content request, no write and the files as they
    were. *)
Theorem runUpdateCycle_signature_not_a_string env w r props ts sig :
  completion (fetchWithRetry env TOKEN_URL token_options PROXY_URL w) = Normal r →
  body_json r = BodyValue props →
  props !! "timestamp" = Some ts → truthy ts = true →
  props !! "signature" = Some sig → truthy sig = true →
  (∀ s, sig ≠ JString s) →
  let failure :=
    default (mkError "signature.substring is not a function")
      (template_error env ts) in
  completion (acquire_token env w) = Throw failure
  ∧ (∀ options, (CONTENT_URL, options) ∉ fetched (events (runUpdateCycle env w)))
  ∧ writes (events (runUpdateCycle env w)) = []
  ∧ files (world (runUpdateCycle env w)) = files w
  ∧ last (events (runUpdateCycle env w))
      = Some (ConsoleError ("[CRITICAL] Major update failure: "
                              +:+ message failure)).
Proof.
  intros Hr Hb Hts Htruthy Hsig Hstruthy Hnot failure.
  assert (Hacq : completion (acquire_token env w) = Throw failure).
  { unfold acquire_token. rewrite completion_bind, Hr.
    unfold response_json. rewrite Hb. cbn. rewrite Hts, Hsig. cbn.
    rewrite Htruthy, Hstruthy. cbn.
    rewrite completion_bind. subst failure. unfold template.
    destruct (template_error env ts) as [e|] eqn:He.
    - by destruct ts.
    - assert (Hsub : ∀ (k : string → Js (js_value * js_value)) w',
                completion (bind (js_substring sig 0 8) k w')
                = Throw (mkError "signature.substring is not a function")).
      { intros k w'. destruct sig; try done. by destruct (Hnot s). }
      destruct ts; cbn [ret completion world default from_option id];
        apply Hsub. }
  split; [exact Hacq|].
  split.
  { intros options Hin.
    rewrite runUpdateCycle_run in Hin. cbv zeta in Hin. rewrite Hacq in Hin.
    cbn [events] in Hin.
    change (fetched (?a :: ?l)) with (fetched l) in Hin.
    rewrite fetched_app in Hin. cbn [fetched omap list_omap app] in Hin.
    rewrite app_nil_r in Hin.
    by apply (quiet_fetched _ _ _ _ _ (acquire_token_quiet env w)) in Hin as [? _]. }
  split; [by rewrite runUpdateCycle_writes, Hacq|].
  split; [by rewrite runUpdateCycle_files, Hacq|].
  rewrite runUpdateCycle_run. cbv zeta. rewrite Hacq. cbn [events].
  change (?a :: ?l ++ [?x]) with ((a :: l) ++ [x]). apply last_snoc.
Qed.

Lemma runUpdateCycle_signature_not_a_string_witness :
  (completion (acquire_token numeric_signature_env (initial_world ∅))
     = Throw (mkError "signature.substring is not a function")
   ∧ (∀ options,
        (CONTENT_URL, options)
          ∉ fetched (events (runUpdateCycle numeric_signature_env
                               (initial_world ∅))))
   ∧ writes (events (runUpdateCycle numeric_signature_env (initial_world ∅))) = []
   ∧ files (world (runUpdateCycle numeric_signature_env (initial_world ∅)))
       = files (initial_world ∅)
   ∧ last (events (runUpdateCycle numeric_signature_env (initial_world ∅)))
       = Some (ConsoleError ("[CRITICAL] Major update failure: "
                               +:+ "signature.substring is not a function")))
  ∧ completion (acquire_token unprintable_timestamp_env (initial_world ∅))
      = Throw (mkError "Cannot convert object to primitive value")
  ∧ last (events (runUpdateCycle unprintable_timestamp_env (initial_world ∅)))
      = Some (ConsoleError ("[CRITICAL] Major update failure: "
                              +:+ "Cannot convert object to primitive value")).
Proof.
  split.
  - eapply (runUpdateCycle_signature_not_a_string numeric_signature_env
              (initial_world ∅) _ _ (JNumber (1700000000 # 1))
              (JNumber (12345 # 1)));
      [vm_compute; reflexivity|reflexivity|reflexivity|reflexivity|reflexivity
      |reflexivity|discriminate].
  - assert (H : completion (acquire_token unprintable_timestamp_env
                              (initial_world ∅))
                = Throw (mkError "Cannot convert object to primitive value")
                ∧ (∀ options,
                     (CONTENT_URL, options)
                       ∉ fetched (events (runUpdateCycle unprintable_timestamp_env
                                            (initial_world ∅))))
                ∧ writes (events (runUpdateCycle unprintable_timestamp_env
                                    (initial_world ∅))) = []
                ∧ files (world (runUpdateCycle unprintable_timestamp_env
                                  (initial_world ∅))) = files (initial_world ∅)
                ∧ last (events (runUpdateCycle unprintable_timestamp_env
                                  (initial_world ∅)))
                    = Some (ConsoleError
                              ("[CRITICAL] Major update failure: "
                                 +:+ "Cannot convert object to primitive value"))).
    { eapply (runUpdateCycle_signature_not_a_string unprintable_timestamp_env
                (initial_world ∅) _ _ (JObject None) (JNumber (12345 # 1)));
        [vm_compute; reflexivity|reflexivity|reflexivity|reflexivity|reflexivity
        |reflexivity|discriminate]. }
    split; [apply H|apply H].
Defined.

(** X12. The requests of a cycle that acquired its token: first those to
    the token endpoint, then those to the content endpoint, and each of
    the latter is the POST of one of the three types carrying this
    cycle's [timestamp] and [signature] as they came. *)
Theorem runUpdateCycle_token_handed_on env w ts sig :
  completion (acquire_token env w) = Normal (ts, sig) →
  ∃ token_events item_events,
    events (runUpdateCycle env w)
      = ConsoleLog (newline +:+ "--- Starting update cycle at " +:+ clock env 0
                      +:+ " ---")
        :: token_events ++ item_events
    ∧ (∀ u o, (u, o) ∈ fetched token_events →
              u = TOKEN_URL ∧ o = mkOptions None HEADERS None)
    ∧ (∀ u o, (u, o) ∈ fetched item_events →
              u = CONTENT_URL
              ∧ ∃ req, req ∈ REQUEST_TYPES
                       ∧ o = mkOptions (Some "POST")
                               (HEADERS ++ [("x-timestamp", ts);
                                            ("x-signature", sig)])
                               (Some (JSON_stringify_type (type req)))).
Proof.
  intros Hacq.
  exists (events (acquire_token env w)),
    (events (Promise_all (update_promises env ts sig)
               (mkWorld (files w) (clock env 1)))
       ++ [ConsoleLog "--- Update cycle finished ---"]).
  split.
  { rewrite runUpdateCycle_run. cbv zeta. by rewrite Hacq. }
  split.
  { intros u o Hin.
    by apply (quiet_fetched _ _ _ _ _ (acquire_token_quiet env w)) in Hin. }
  intros u o Hin. rewrite fetched_app in Hin.
  cbn [fetched omap list_omap] in Hin. rewrite app_nil_r in Hin.
  by apply (proj1 (Promise_all_items_fetched env ts sig REQUEST_TYPES _)) in Hin.
Qed.

Lemma runUpdateCycle_token_handed_on_witness :
  ∃ token_events item_events,
    events (runUpdateCycle live_down_env (initial_world ∅))
      = ConsoleLog (newline +:+ "--- Starting update cycle at "
                      +:+ clock live_down_env 0 +:+ " ---")
        :: token_events ++ item_events
    ∧ (∀ u o, (u, o) ∈ fetched token_events →
              u = TOKEN_URL ∧ o = mkOptions None HEADERS None)
    ∧ (∀ u o, (u, o) ∈ fetched item_events →
              u = CONTENT_URL
              ∧ ∃ req, req ∈ REQUEST_TYPES
                       ∧ o = mkOptions (Some "POST")
                               (HEADERS ++ [("x-timestamp", JString "123");
                                            ("x-signature", JString "abcdef")])
                               (Some (JSON_stringify_type (type req)))).
Proof.
  apply (runUpdateCycle_token_handed_on live_down_env (initial_world ∅)
           (JString "123") (JString "abcdef")).
  vm_compute. reflexivity.
Defined.

(** X13. A cycle sends at most twenty requests, five to the token
    endpoint and five for each type, and at most five when the token is
    not acquired; it issues at most three writes. *)
Theorem runUpdateCycle_request_budget env w :
  length (fetched (events (runUpdateCycle env w))) ≤ 20
  ∧ (∀ e, completion (acquire_token env w) = Throw e →
          length (fetched (events (runUpdateCycle env w))) ≤ 5)
  ∧ length (writes (events (runUpdateCycle env w))) ≤ 3.
Proof.
  assert (Htok : length (fetched (events (acquire_token env w))) ≤ 5).
  { rewrite acquire_token_fetched.
    apply (retry_loop_counts MAX_RETRIES env TOKEN_URL token_options
             MAX_RETRIES 0 None w). }
  split; [|split].
  - rewrite runUpdateCycle_run. cbv zeta.
    destruct (completion (acquire_token env w)) as [token|e]; cbn [events];
      change (fetched (ConsoleLog ?a :: ?l)) with (fetched l);
      rewrite !fetched_app, !length_app; cbn [fetched omap list_omap length].
    + pose proof (proj2 (Promise_all_items_fetched env token.1 token.2
                           REQUEST_TYPES (mkWorld (files w) (clock env 1))))
        as Hitems.
      fold (update_promises env token.1 token.2) in Hitems.
      cbn [REQUEST_TYPES length] in Hitems. lia.
    + lia.
  - intros e He. rewrite runUpdateCycle_run. cbv zeta. rewrite He. cbn [events].
    change (fetched (ConsoleLog ?a :: ?l)) with (fetched l).
    rewrite fetched_app, length_app. cbn [fetched omap list_omap length]. lia.
  - rewrite runUpdateCycle_writes.
    destruct (completion (acquire_token env w)) as [token|e]; [|cbn; lia].
    unfold REQUEST_TYPES. cbn [map concat]. unfold item_writes.
    rewrite !length_app.
    repeat match goal with
           | |- context [match ?c with Normal _ => _ | Throw _ => _ end] =>
               destruct c
           end; cbn; lia.
Qed.

Lemma cache_items_other env ts sig w path reqs :
  ∀ fs : gmap string (list Z),
    path ∉ map (λ req, cache_path env (filename req)) reqs →
    foldl (cache_item env ts sig w) fs reqs !! path = fs !! path.
Proof.
  induction reqs as [|req reqs IH]; intros fs Hpath; [done|].
  cbn [map] in Hpath. apply not_elem_of_cons in Hpath as [Hne Hpath].
  cbn [foldl]. rewrite IH by done. unfold cache_item.
  destruct (item_result _ _ _ _ _ _); [|done]. by rewrite lookup_insert_ne.
Qed.

(** X14. A cycle changes no file but the three cache files, and every
    write it issues goes to one of them; the three are the file names
    joined to the cache directory, three different paths wherever the
    script lies. *)
Theorem runUpdateCycle_only_cache_files env w :
  (∀ path,
     path ∉ cache_paths env →
     files (world (runUpdateCycle env w)) !! path = files w !! path)
  ∧ (∀ path text,
       (path, text) ∈ writes (events (runUpdateCycle env w)) →
       path ∈ cache_paths env)
  ∧ cache_paths env
      = map (path_join (path_join (dirname env) "cache"))
          ["upcoming.json"; "live.json"; "completed.json"]
  ∧ NoDup (cache_paths env).
Proof.
  split; [|split; [|split; [reflexivity|]]].
  - intros path Hpath. rewrite runUpdateCycle_files.
    destruct (completion (acquire_token env w)) as [token|e]; [|done].
    by apply cache_items_other.
  - intros path text Hin. rewrite runUpdateCycle_writes in Hin.
    destruct (completion (acquire_token env w)) as [token|e];
      [|by apply elem_of_nil in Hin].
    unfold cache_paths. unfold REQUEST_TYPES in *.
    cbn [map concat type filename] in *. unfold item_writes in Hin.
    cbn [type filename] in Hin.
    repeat match type of Hin with
           | context [match ?c with Normal _ => _ | Throw _ => _ end] =>
               destruct c
           end;
      cbn [app] in Hin;
      repeat (apply elem_of_cons in Hin as [[= -> _]|Hin]);
      try (by apply elem_of_nil in Hin);
      repeat constructor.
  - unfold cache_paths, REQUEST_TYPES. cbn [map filename].
    pose proof (cache_path_ne env "upcoming.json" "live.json" eq_refl eq_refl) as N1.
    pose proof (cache_path_ne env "upcoming.json" "completed.json" eq_refl eq_refl)
      as N2.
    pose proof (cache_path_ne env "live.json" "completed.json" eq_refl eq_refl)
      as N3.
    repeat (apply NoDup_cons; split);
      rewrite ?not_elem_of_cons, ?elem_of_nil; try apply NoDup_nil;
      naive_solver.
Qed.



Lemma replayed_cycles_files env fs n :
  ∀ w,
    files w = written env ∪ fs →
    files (run_cycles (replicate n env) w) = written env ∪ fs.
Proof.
  induction n as [|n IH]; intros w Hw; [done|].
  cbn [replicate]. unfold run_cycles. cbn [fold_left].
  apply IH. rewrite runUpdateCycle_frame, Hw.
  by rewrite (assoc_L (∪)), (idemp_L (∪)).
Qed.

(** X16. A cycle that gets the same answers again changes nothing: after
    one cycle, any number of further cycles in the same surroundings
    leave the files as the first one left them. *)
Theorem runUpdateCycle_replay env w n :
  files (run_cycles (replicate n env) (world (runUpdateCycle env w)))
    = files (world (runUpdateCycle env w)).
Proof.
  rewrite (replayed_cycles_files env (files w)); by rewrite runUpdateCycle_frame.
Qed.

(** ** The earlier script *)

Lemma completion_try_catch {A} (m : Js A) h w :
  completion (try_catch m h w) =
    match completion (m w) with
    | Normal a => Normal a
    | Throw e => completion (h e (world (m w)))
    end.
Proof. unfold try_catch. by destruct (completion (m w)) eqn:E. Qed.

Lemma world_try_catch {A} (m : Js A) h w :
  world (try_catch m h w) =
    match completion (m w) with
    | Normal a => world (m w)
    | Throw e => world (h e (world (m w)))
    end.
Proof. unfold try_catch. by destruct (completion (m w)). Qed.

Lemma events_try_catch {A} (m : Js A) h w :
  events (try_catch m h w) =
    events (m w) ++ match completion (m w) with
                    | Normal a => []
                    | Throw e => events (h e (world (m w)))
                    end.
Proof. unfold try_catch. destruct (completion (m w)); cbn; by rewrite ?app_nil_r. Qed.

(** The steps between the fetch and the write touch nothing. *)
Lemma decode_response_run env ty r w :
  decode_response env ty r w = mkRun (completion (decode_response env ty r w)) w [].
Proof.
  unfold decode_response, bind, response_json.
  destruct (body_json r) as [e| |props]; cbn; try done.
  destruct (truthy _); cbn; [|done].
  unfold Buffer_from. by destruct (buffer_of _).
Qed.

Lemma decode_response_stateless env ty r w w' :
  completion (decode_response env ty r w) = completion (decode_response env ty r w').
Proof.
  unfold decode_response, bind, response_json.
  destruct (body_json r) as [e| |props]; cbn; try done.
  destruct (truthy _); cbn; [|done].
  unfold Buffer_from. by destruct (buffer_of _).
Qed.

(** The single fetch of an item of the earlier script and what follows. *)
Lemma serverjs_fetch_and_decode_run env ty ts sig w :
  ServerJs.fetch_and_decode env ty ts sig w =
    mkRun (match network env CONTENT_URL (ServerJs.content_options ty ts sig) 0 with
           | Rejects e => Throw e
           | Resolves r =>
               if ok r then completion (decode_response env ty r w)
               else Throw (ServerJs.content_failed_error r)
           end) w [Fetch CONTENT_URL (ServerJs.content_options ty ts sig)].
Proof.
  unfold ServerJs.fetch_and_decode, bind, fetch. cbn [completion world events].
  destruct (network env CONTENT_URL (ServerJs.content_options ty ts sig) 0)
    as [e|r]; [done|].
  destruct (ok r); cbn [negb]; [|done].
  rewrite decode_response_run. cbn [completion world events]. done.
Qed.

(** The write and the handler around a decode that leaves the state
    alone, as both scripts have them. *)
Lemma serverjs_fetchAndCacheData_run env ty fname ts sig w :
  ServerJs.fetchAndCacheData env ty fname ts sig w =
    let d := ServerJs.fetch_and_decode env ty ts sig w in
    let path := cache_path env fname in
    match completion d with
    | Throw e => mkRun (Normal tt) w (events d ++ [ConsoleError (item_error_line ty e)])
    | Normal text =>
        match disk env path with
        | None =>
            mkRun (Normal tt)
              (mkWorld (<[path := Utf8.encode text]> (files w)) (lastUpdateTime w))
              (events d ++ [WriteFile path text;
                            ConsoleLog ("[SUCCESS] Cached " +:+ ty +:+ " data to "
                                          +:+ fname)])
        | Some e =>
            mkRun (Normal tt) w
              (events d ++ [WriteFile path text; ConsoleError (item_error_line ty e)])
        end
    end.
Proof.
  cbv zeta.
  unfold ServerJs.fetchAndCacheData, try_catch, bind, fs_writeFile, cache_path,
    item_error_line.
  rewrite serverjs_fetch_and_decode_run. cbn [completion world events].
  destruct (match network env CONTENT_URL _ 0 with Rejects _ => _ | Resolves _ => _ end)
    as [text|e]; cbn [completion world events]; [|done].
  destruct (disk env (path_join (CACHE_DIR env) fname)) as [e|];
    unfold console_log, console_error, emit;
    cbn [completion world events]; done.
Qed.

Lemma serverjs_item_single_request_aux env ty fname ts sig w :
  completion (ServerJs.fetchAndCacheData env ty fname ts sig w) = Normal tt
  ∧ length (fetched (events (ServerJs.fetchAndCacheData env ty fname ts sig w))) = 1
  ∧ timeouts (events (ServerJs.fetchAndCacheData env ty fname ts sig w)) = []
  ∧ lastUpdateTime (world (ServerJs.fetchAndCacheData env ty fname ts sig w))
      = lastUpdateTime w.
Proof.
  rewrite serverjs_fetchAndCacheData_run. cbv zeta.
  rewrite serverjs_fetch_and_decode_run. cbn [completion world events].
  by destruct (match network env CONTENT_URL _ 0 with Rejects _ => _ | Resolves _ => _ end)
    as [text|e]; [destruct (disk env (cache_path env fname))|].
Qed.

(** X17. An item of the earlier script sends its request exactly once and
    never sets a timer; like the later one it never lets an error out and
    changes no file but its own. *)
Theorem serverjs_item_single_request env ty fname ts sig w :
  completion (ServerJs.fetchAndCacheData env ty fname ts sig w) = Normal tt
  ∧ fetched (events (ServerJs.fetchAndCacheData env ty fname ts sig w))
      = [(CONTENT_URL,
          mkOptions (Some "POST")
            (ServerJs.HEADERS ++ [("x-timestamp", ts); ("x-signature", sig)])
            (Some (JSON_stringify_type ty)))]
  ∧ timeouts (events (ServerJs.fetchAndCacheData env ty fname ts sig w)) = []
  ∧ lastUpdateTime (world (ServerJs.fetchAndCacheData env ty fname ts sig w))
      = lastUpdateTime w
  ∧ (∀ path,
       path ≠ cache_path env fname →
       files (world (ServerJs.fetchAndCacheData env ty fname ts sig w)) !! path
         = files w !! path).
Proof.
  rewrite serverjs_fetchAndCacheData_run. cbv zeta.
  rewrite serverjs_fetch_and_decode_run. cbn [completion world events].
  destruct (match network env CONTENT_URL _ 0 with Rejects _ => _ | Resolves _ => _ end)
    as [text|e]; [destruct (disk env (cache_path env fname))|];
    cbn [completion world events files lastUpdateTime app];
    repeat split; try done.
  intros path Hne. by rewrite lookup_insert_ne.
Qed.

(** X18. In the earlier script a response that is not OK, a 403 like any
    other, ends the item without a write: the state is as it was and the
    item's error line reports the status. *)
Theorem serverjs_item_not_ok env ty fname ts sig w r :
  network env CONTENT_URL (ServerJs.content_options ty ts sig) 0 = Resolves r →
  ok r = false →
  writes (events (ServerJs.fetchAndCacheData env ty fname ts sig w)) = []
  ∧ world (ServerJs.fetchAndCacheData env ty fname ts sig w) = w
  ∧ events (ServerJs.fetchAndCacheData env ty fname ts sig w)
      = [Fetch CONTENT_URL (ServerJs.content_options ty ts sig);
         ConsoleError ("[ERROR] Failed to fetch or decode " +:+ ty +:+ " data: "
                         +:+ "Content API failed! Status: " +:+ pretty (status r)
                         +:+ " " +:+ statusText r)].
Proof.
  intros Hnet Hok.
  rewrite serverjs_fetchAndCacheData_run. cbv zeta.
  rewrite serverjs_fetch_and_decode_run. cbn [completion world events].
  by rewrite Hnet, Hok.
Qed.

Lemma serverjs_item_not_ok_witness :
  writes (events (ServerJs.fetchAndCacheData live_down_env "live" "live.json"
                    (JString "123") (JString "abcdef") (initial_world ∅))) = []
  ∧ world (ServerJs.fetchAndCacheData live_down_env "live" "live.json"
             (JString "123") (JString "abcdef") (initial_world ∅))
      = initial_world ∅
  ∧ events (ServerJs.fetchAndCacheData live_down_env "live" "live.json"
              (JString "123") (JString "abcdef") (initial_world ∅))
      = [Fetch CONTENT_URL
           (ServerJs.content_options "live" (JString "123") (JString "abcdef"));
         ConsoleError ("[ERROR] Failed to fetch or decode " +:+ "live" +:+ " data: "
                         +:+ "Content API failed! Status: " +:+ pretty 403%N
                         +:+ " " +:+ "Forbidden")].
Proof.
  apply (serverjs_item_not_ok live_down_env "live" "live.json" (JString "123")
           (JString "abcdef") (initial_world ∅)
           (mkResponse 403 "Forbidden" BodyNull));
    reflexivity.
Defined.

(** X19. The two scripts agree wherever the first attempt is answered
    with an OK response: given the same response to their requests, an
    item of the later script does to the state what an item of the
    earlier one does, issues the same write and sets no timer. *)
Theorem scripts_agree_on_first_success env ty fname ts sig w r :
  network env CONTENT_URL (ServerJs.content_options ty ts sig) 0 = Resolves r →
  network env CONTENT_URL (content_options ty ts sig) 0 = Resolves r →
  ok r = true →
  world (fetchAndCacheData env ty fname ts sig w)
    = world (ServerJs.fetchAndCacheData env ty fname ts sig w)
  ∧ writes (events (fetchAndCacheData env ty fname ts sig w))
      = writes (events (ServerJs.fetchAndCacheData env ty fname ts sig w))
  ∧ timeouts (events (fetchAndCacheData env ty fname ts sig w)) = []
  ∧ length (fetched (events (fetchAndCacheData env ty fname ts sig w))) = 1.
Proof.
  intros Hold Hnew Hok.
  assert (Hclass : classify (network env CONTENT_URL (content_options ty ts sig) 0)
                   = Normal r).
  { rewrite Hnew. cbn. apply ok_range in Hok as Hrange.
    destruct (N.eqb_spec (status r) 403); [lia|]. by rewrite Hok. }
  assert (Hfetch : fetchWithRetry env CONTENT_URL (content_options ty ts sig)
                     PROXY_URL w
                   = mkRun (Normal r) w [Fetch CONTENT_URL (content_options ty ts sig)]).
  { unfold fetchWithRetry, fetchWithRetry_max, MAX_RETRIES.
    by erewrite retry_loop_success by done. }
  assert (Hdec : completion (fetch_and_decode env ty ts sig w)
                 = completion (decode_response env ty r w)).
  { change (fetch_and_decode env ty ts sig)
      with (bind (fetchWithRetry env CONTENT_URL (content_options ty ts sig)
                    PROXY_URL) (decode_response env ty)).
    by rewrite completion_bind, Hfetch. }
  rewrite fetchAndCacheData_timeouts, fetchAndCacheData_fetched, Hfetch.
  rewrite fetchAndCacheData_writes, fetchAndCacheData_world.
  unfold item_writes, item_result. cbn [type filename]. rewrite Hdec.
  rewrite serverjs_fetchAndCacheData_run. cbv zeta.
  rewrite serverjs_fetch_and_decode_run. cbn [completion world events].
  rewrite Hold, Hok.
  destruct (completion (decode_response env ty r w)) as [text|e];
    [destruct (disk env (cache_path env fname))|];
    cbn [completion world events]; repeat split; try done; by destruct w.
Qed.

Lemma scripts_agree_on_first_success_witness :
  world (fetchAndCacheData live_down_env "up" "upcoming.json"
           (JString "123") (JString "abcdef") (initial_world ∅))
    = world (ServerJs.fetchAndCacheData live_down_env "up" "upcoming.json"
               (JString "123") (JString "abcdef") (initial_world ∅))
  ∧ writes (events (fetchAndCacheData live_down_env "up" "upcoming.json"
                      (JString "123") (JString "abcdef") (initial_world ∅)))
      = writes (events (ServerJs.fetchAndCacheData live_down_env "up"
                          "upcoming.json" (JString "123") (JString "abcdef")
                          (initial_world ∅)))
  ∧ timeouts (events (fetchAndCacheData live_down_env "up" "upcoming.json"
                        (JString "123") (JString "abcdef") (initial_world ∅))) = []
  ∧ length (fetched (events (fetchAndCacheData live_down_env "up" "upcoming.json"
                               (JString "123") (JString "abcdef")
                               (initial_world ∅)))) = 1.
Proof.
  eapply (scripts_agree_on_first_success live_down_env "up" "upcoming.json"
            (JString "123") (JString "abcdef") (initial_world ∅));
    reflexivity.
Defined.

Lemma stateless_serverjs_acquire_token env : stateless (ServerJs.acquire_token env).
Proof.
  unfold ServerJs.acquire_token.
  apply stateless_bind; [apply stateless_fetch|intros r].
  destruct (negb (ok r)); [apply stateless_throw|].
  apply stateless_bind; [apply stateless_response_json|intros b].
  apply stateless_bind; [apply stateless_destructure|intros ts].
  apply stateless_bind; [apply stateless_destructure|intros sig].
  destruct (_ || _); [apply stateless_throw|].
  apply stateless_bind; [apply stateless_template|intros t].
  apply stateless_bind; [apply stateless_js_substring|intros s8].
  apply stateless_bind; [apply stateless_emit|intros; apply stateless_ret].
Qed.

Lemma serverjs_acquire_token_events env w :
  fetched (events (ServerJs.acquire_token env w))
    = [(TOKEN_URL, ServerJs.token_options)]
  ∧ timeouts (events (ServerJs.acquire_token env w)) = [].
Proof.
  unfold ServerJs.acquire_token. rewrite events_bind, fetched_app, timeouts_app.
  generalize ServerJs.token_options TOKEN_URL. intros o u.
  change (fetched (events (fetch env u o 0 w))) with [(u, o)].
  change (timeouts (events (fetch env u o 0 w))) with (@nil Z).
  cbn [app].
  enough (∀ r : Response,
    fetched (events
      ((if negb (ok r) then throw (ServerJs.token_failed_error r)
        else
          let* tokenData := response_json r in
          let* timestamp := destructure tokenData "timestamp" in
          let* signature := destructure tokenData "signature" in
          if negb (truthy timestamp) || negb (truthy signature) then
            throw (mkError "Token API did not return timestamp or signature.")
          else
            let* ts := template env timestamp in
            let* sig8 := js_substring signature 0 8 in
            do* console_log ("Token fetched. TS: " +:+ ts
                               +:+ ", SIG: " +:+ sig8 +:+ "...") in
            ret (timestamp, signature)) (world (fetch env u o 0 w)))) = []
    ∧ timeouts (events
      ((if negb (ok r) then throw (ServerJs.token_failed_error r)
        else
          let* tokenData := response_json r in
          let* timestamp := destructure tokenData "timestamp" in
          let* signature := destructure tokenData "signature" in
          if negb (truthy timestamp) || negb (truthy signature) then
            throw (mkError "Token API did not return timestamp or signature.")
          else
            let* ts := template env timestamp in
            let* sig8 := js_substring signature 0 8 in
            do* console_log ("Token fetched. TS: " +:+ ts
                               +:+ ", SIG: " +:+ sig8 +:+ "...") in
            ret (timestamp, signature)) (world (fetch env u o 0 w)))) = []) as H.
  { destruct (completion (fetch env u o 0 w)) as [r|e]; [|done].
    destruct (H r) as [-> ->]. done. }
  intros r. generalize (world (fetch env u o 0 w)). intros w1.
  destruct (negb (ok r)); [done|].
  rewrite !events_bind, !fetched_app, !timeouts_app.
  unfold response_json.
  destruct (body_json r) as [e| |props];
    cbn [ret throw completion world events app fetched timeouts];
    [done|done|].
  rewrite !events_bind.
  cbn [destructure ret throw completion world events app fetched timeouts].
  rewrite !events_bind.
  cbn [destructure ret throw completion world events app fetched timeouts].
  destruct (_ || _); [done|].
  rewrite !events_bind. unfold template, template_error.
  destruct (default JUndefined (props !! "timestamp"));
    try destruct (not_convertible env _);
    destruct (default JUndefined (props !! "signature")); cbn; done.
Qed.

Lemma serverjs_acquire_token_run env w w0 :
  world (ServerJs.acquire_token env w) = w
  ∧ fetched (events (ServerJs.acquire_token env w))
      = [(TOKEN_URL, ServerJs.token_options)]
  ∧ timeouts (events (ServerJs.acquire_token env w)) = []
  ∧ completion (ServerJs.acquire_token env w)
      = completion (ServerJs.acquire_token env w0).
Proof.
  destruct (stateless_run _ w w0 (stateless_serverjs_acquire_token env))
    as (Hc & Hw & _).
  destruct (serverjs_acquire_token_events env w) as [Hf Ht].
  done.
Qed.

Lemma serverjs_items env ts sig reqs :
  ∀ w,
    completion (Promise_all
      (map (λ req, ServerJs.fetchAndCacheData env (type req) (filename req) ts sig)
           reqs) w) = Normal tt
    ∧ length (fetched (events (Promise_all
        (map (λ req, ServerJs.fetchAndCacheData env (type req) (filename req) ts sig)
             reqs) w))) = length reqs
    ∧ timeouts (events (Promise_all
        (map (λ req, ServerJs.fetchAndCacheData env (type req) (filename req) ts sig)
             reqs) w)) = []
    ∧ lastUpdateTime (world (Promise_all
        (map (λ req, ServerJs.fetchAndCacheData env (type req) (filename req) ts sig)
             reqs) w)) = lastUpdateTime w.
Proof.
  induction reqs as [|req reqs IH]; intros w; [done|].
  cbn [map Promise_all]. cbv zeta. cbn [completion world events].
  destruct (serverjs_item_single_request_aux env (type req) (filename req) ts sig w)
    as (Hc & Hf & Ht & Hl).
  destruct (IH (world (ServerJs.fetchAndCacheData env (type req) (filename req)
                         ts sig w))) as (IHc & IHf & IHt & IHl).
  rewrite Hc, IHc, fetched_app, timeouts_app, length_app, Hf, Ht, IHf, IHt, IHl, Hl.
  done.
Qed.

Lemma serverjs_runUpdateCycle_run env w :
  ServerJs.runUpdateCycle env w =
    let w1 := mkWorld (files w) (clock env 1) in
    let t := ServerJs.acquire_token env w1 in
    match completion t with
    | Throw e =>
        mkRun (Normal tt) w1
          (ConsoleLog (start_line env)
             :: events t ++ [ConsoleError (critical_line e)])
    | Normal token =>
        let r := Promise_all (ServerJs.update_promises env (fst token) (snd token))
                   w1 in
        mkRun (Normal tt) (world r)
          (ConsoleLog (start_line env)
             :: events t ++ events r ++ [ConsoleLog "--- Update cycle finished ---"])
    end.
Proof.
  cbv zeta. rewrite (run_eta (ServerJs.runUpdateCycle env w)).
  unfold ServerJs.runUpdateCycle.
  rewrite !completion_bind, !world_bind, !events_bind.
  rewrite !console_log_run, !set_lastUpdateTime_run.
  cbn [completion world events app].
  set (w1 := mkWorld (files w) (clock env 1)).
  rewrite completion_try_catch, world_try_catch, events_try_catch.
  unfold ServerJs.update_body.
  rewrite !completion_bind, !world_bind, !events_bind.
  destruct (serverjs_acquire_token_run env w1 w1) as (Hw & _).
  rewrite Hw. fold (start_line env).
  destruct (completion (ServerJs.acquire_token env w1)) as [token|e].
  - destruct (serverjs_items env token.1 token.2 REQUEST_TYPES w1) as (Hc & _).
    fold (ServerJs.update_promises env token.1 token.2) in Hc.
    rewrite !completion_bind, !world_bind, !events_bind, Hc, !console_log_run.
    cbn [completion world events]. by rewrite app_nil_r.
  - rewrite !console_error_run. cbn [completion world events].
    by rewrite app_nil_r.
Qed.

Lemma serverjs_acquire_token_not_ok env w r :
  network env TOKEN_URL ServerJs.token_options 0 = Resolves r →
  ok r = false →
  ServerJs.acquire_token env w =
    mkRun (Throw (ServerJs.token_failed_error r)) w
      [Fetch TOKEN_URL ServerJs.token_options].
Proof.
  intros Hnet Hok. unfold ServerJs.acquire_token.
  erewrite bind_normal; [|unfold fetch; rewrite Hnet; reflexivity].
  rewrite Hok. reflexivity.
Qed.

(** X20. In the earlier script a token response that is not OK ends the
    cycle after its one request: the status is reported as a critical
    failure, [lastUpdateTime] is the new time and the files are as they
    were. *)
Theorem serverjs_token_not_ok env w r :
  network env TOKEN_URL ServerJs.token_options 0 = Resolves r →
  ok r = false →
  ServerJs.runUpdateCycle env w =
    mkRun (Normal tt) (mkWorld (files w) (clock env 1))
      [ConsoleLog (newline +:+ "--- Starting update cycle at " +:+ clock env 0
                     +:+ " ---");
       Fetch TOKEN_URL (mkOptions None ServerJs.HEADERS None);
       ConsoleError ("[CRITICAL] Major update failure: " +:+ "Token API failed: "
                       +:+ pretty (status r) +:+ " " +:+ statusText r)].
Proof.
  intros Hnet Hok. rewrite serverjs_runUpdateCycle_run. cbv zeta.
  rewrite (serverjs_acquire_token_not_ok env _ r Hnet Hok).
  cbn [completion world events app]. reflexivity.
Qed.

Lemma serverjs_token_not_ok_witness :
  ServerJs.runUpdateCycle token_down_env (initial_world ∅) =
    mkRun (Normal tt) (mkWorld ∅ "10:00:01")
      [ConsoleLog (newline +:+ "--- Starting update cycle at " +:+ "10:00:00"
                     +:+ " ---");
       Fetch TOKEN_URL (mkOptions None ServerJs.HEADERS None);
       ConsoleError ("[CRITICAL] Major update failure: " +:+ "Token API failed: "
                       +:+ pretty 502%N +:+ " " +:+ "Bad Gateway")].
Proof.
  apply (serverjs_token_not_ok token_down_env (initial_world ∅)
           (mkResponse 502 "Bad Gateway" BodyNull)); reflexivity.
Defined.

(** X21. A cycle of the earlier script sends at most four requests (four
    when it acquires its token, one when it does not), sets no timer,
    never lets an error out and sets [lastUpdateTime] to the time read at
    its start. *)
Theorem serverjs_cycle_budget env w :
  completion (ServerJs.runUpdateCycle env w) = Normal tt
  ∧ lastUpdateTime (world (ServerJs.runUpdateCycle env w)) = clock env 1
  ∧ timeouts (events (ServerJs.runUpdateCycle env w)) = []
  ∧ length (fetched (events (ServerJs.runUpdateCycle env w)))
      = match completion (ServerJs.acquire_token env w) with
        | Normal _ => 4
        | Throw _ => 1
        end.
Proof.
  rewrite serverjs_runUpdateCycle_run. cbv zeta.
  set (w1 := mkWorld (files w) (clock env 1)).
  destruct (serverjs_acquire_token_run env w1 w1) as (_ & Hf & Ht & _).
  assert (Hsame : completion (ServerJs.acquire_token env w)
                  = completion (ServerJs.acquire_token env w1)).
  { apply (serverjs_acquire_token_run env w w1). }
  rewrite Hsame.
  destruct (completion (ServerJs.acquire_token env w1)) as [token|e];
    cbn [completion world events].
  - destruct (serverjs_items env token.1 token.2 REQUEST_TYPES w1)
      as (_ & Hif & Hit & Hil).
    fold (ServerJs.update_promises env token.1 token.2) in Hif, Hit, Hil.
    change (timeouts (ConsoleLog ?a :: ?l)) with (timeouts l).
    change (fetched (ConsoleLog ?a :: ?l)) with (fetched l).
    rewrite !timeouts_app, !fetched_app, !length_app, Ht, Hf, Hit, Hif, Hil.
    done.
  - change (timeouts (ConsoleLog ?a :: ?l)) with (timeouts l).
    change (fetched (ConsoleLog ?a :: ?l)) with (fetched l).
    rewrite !timeouts_app, !fetched_app, !length_app, Ht, Hf. done.
Qed.

(** ** The status endpoint *)

(** X22. [GET /status] answers with the time read at the start of the
    latest cycle, whatever that cycle and the ones before it did, and
    changes nothing. *)
Theorem status_reports_latest_cycle envs env w :
  get_status (run_cycles (envs ++ [env]) w) =
    mkRun (Normal {[ "lastUpdate" := JString (clock env 1) ]})
      (run_cycles (envs ++ [env]) w) [].
Proof.
  unfold get_status, run_cycles. rewrite fold_left_app. cbn [fold_left].
  by rewrite runUpdateCycle_lastUpdateTime.
Qed.
